(** * vCardConvert: the vCard field parser and the column ordering

    A shallow embedding of [vCardConvert.py].  The Python program reads an
    Apple-style vCard export, classifies every line of every entry into
    (label, value) pairs, resolves the grouped [itemN.] lines, and hands the
    record list to renderers that order the columns with
    [custom_column_ordering].

    Conventions of the embedding.
    - A Python [str] is a [string]; the character with code [n] stands for the
      code point U+00[n], so the model covers texts whose code points lie
      below U+0100.  Character classes (white space, line boundaries, digits,
      printable characters, case mappings) are the ones of Python 3 on that
      range.
    - An uncaught Python exception ends the run; it is the outcome [Raise].
    - The function attributes [parse_vcard.preferred], [format_phone.enabled],
      [format_address.enabled] and [custom_column_ordering.enabled], which
      [main] sets before any call, are the fields of [config].
    - A list that the code mutates in place is threaded through explicitly.
    - The progress line and the debug dump of [parse_vcard] are not
      modelled; the lists the debug dump is printed from are.  Of the
      renderers, what they compute before they call the [csv] and [json]
      writers or [print] is modelled; the JSON rows are not, because they go
      through [list(set(...))], whose order is not fixed. *)

From Stdlib Require Import String Ascii List Bool NArith Arith Lia.
From Stdlib Require Import Sorted Permutation OrderedTypeEx DecimalString.
Import ListNotations.
Open Scope string_scope.

(** ** Python [str] primitives *)

Module Py.

Definition LF : ascii := "010"%char.
Definition CR : ascii := "013"%char.
Definition code (c : ascii) : N := N_of_ascii c.

Definition in_range (lo hi : N) (c : ascii) : bool :=
  ((lo <=? code c) && (code c <=? hi))%N.

(** [str.isspace] on one character: U+0009..U+000D, U+001C..U+0020, U+0085,
    U+00A0.  This is the set [str.strip()] removes. *)
Definition isspace (c : ascii) : bool :=
  in_range 9 13 c || in_range 28 32 c || (code c =? 133)%N || (code c =? 160)%N.

(** Line boundaries of [str.splitlines] other than the pair CR LF. *)
Definition is_linebreak (c : ascii) : bool :=
  in_range 10 13 c || in_range 28 30 c || (code c =? 133)%N.

(** [\d] of the [re] module on [str] patterns. *)
Definition isdigit (c : ascii) : bool := in_range 48 57 c.
(** [[A-Z]] and [[a-zA-Z]]. *)
Definition is_AZ (c : ascii) : bool := in_range 65 90 c.
Definition is_az (c : ascii) : bool := in_range 97 122 c.
Definition is_alpha (c : ascii) : bool := is_AZ c || is_az c.

(** [str.isprintable] on one character, as [repr] uses it. *)
Definition isprintable (c : ascii) : bool :=
  in_range 32 126 c || (in_range 161 255 c && negb (code c =? 173)%N).

(** [str.lower] on one character. *)
Definition lower_char (c : ascii) : ascii :=
  if is_AZ c || (in_range 192 222 c && negb (code c =? 215)%N)
  then ascii_of_N (code c + 32) else c.

(** Title-casing of one character, the mapping [str.capitalize] applies to the
    first character.  U+00DF maps to the two characters [Ss].  U+00B5 and
    U+00FF map outside the modelled range and are kept as they are: on these
    two first characters the model departs from Python. *)
Definition title_char (c : ascii) : string :=
  if is_az c || (in_range 224 254 c && negb (code c =? 247)%N)
  then String (ascii_of_N (code c - 32)) EmptyString
  else if (code c =? 223)%N then "Ss"
  else String c EmptyString.

Fixpoint lower (s : string) : string :=
  match s with
  | EmptyString => EmptyString
  | String c s' => String (lower_char c) (lower s')
  end.

Definition capitalize (s : string) : string :=
  match s with
  | EmptyString => EmptyString
  | String c s' => title_char c ++ lower s'
  end.

(** Truthiness of a [str]. *)
Definition nonempty (s : string) : bool :=
  match s with EmptyString => false | _ => true end.

Definition startswith (s p : string) : bool := String.prefix p s.

Fixpoint endswith (s suf : string) : bool :=
  (s =? suf) ||
  match s with
  | EmptyString => false
  | String _ s' => endswith s' suf
  end.

(** [sub in s]. *)
Fixpoint contains (s sub : string) : bool :=
  String.prefix sub s ||
  match s with
  | EmptyString => false
  | String _ s' => contains s' sub
  end.

Fixpoint drop (n : nat) (s : string) : string :=
  match n, s with
  | O, _ => s
  | S _, EmptyString => EmptyString
  | S k, String _ s' => drop k s'
  end.

Fixpoint lstrip (s : string) : string :=
  match s with
  | EmptyString => EmptyString
  | String c s' => if isspace c then lstrip s' else s
  end.

Fixpoint rstrip (s : string) : string :=
  match s with
  | EmptyString => EmptyString
  | String c s' =>
      let r := rstrip s' in
      if isspace c && negb (nonempty r) then EmptyString else String c r
  end.

Definition strip (s : string) : string := rstrip (lstrip s).

(** Puts a character in front of the first piece of a split. *)
Definition cons_head (c : ascii) (l : list string) : list string :=
  match l with
  | [] => [String c EmptyString]
  | x :: xs => String c x :: xs
  end.

(** [s.split(sep)] for a one-character separator. *)
Fixpoint split (sep : ascii) (s : string) : list string :=
  match s with
  | EmptyString => [EmptyString]
  | String c s' =>
      if (c =? sep)%char then EmptyString :: split sep s'
      else cons_head c (split sep s')
  end.

(** [s.split(sep, 1)] for a one-character separator. *)
Fixpoint split1 (sep : ascii) (s : string) : list string :=
  match s with
  | EmptyString => [EmptyString]
  | String c s' =>
      if (c =? sep)%char then [EmptyString; s']
      else cons_head c (split1 sep s')
  end.

(** [s.split(sep)] for a separator of any positive length: [skip] counts the
    characters of a separator found that are still to be passed over. *)
Fixpoint split_str_from (sep : string) (skip : nat) (s : string) : list string :=
  match s with
  | EmptyString => [EmptyString]
  | String c s' =>
      match skip with
      | S k => split_str_from sep k s'
      | O =>
          if String.prefix sep s
          then EmptyString :: split_str_from sep (String.length sep - 1) s'
          else cons_head c (split_str_from sep 0 s')
      end
  end.

Definition split_str (sep s : string) : list string := split_str_from sep 0 s.

(** [str.splitlines]: [after_cr] is set just after a CR, whose following LF
    belongs to the same boundary. *)
Fixpoint splitlines_from (after_cr : bool) (s : string) : list string :=
  match s with
  | EmptyString => []
  | String c s' =>
      if after_cr && (c =? LF)%char then splitlines_from false s'
      else if is_linebreak c then EmptyString :: splitlines_from (c =? CR)%char s'
      else cons_head c (splitlines_from false s')
  end.

Definition splitlines (s : string) : list string := splitlines_from false s.

(** [sep.join(l)]. *)
Definition join (sep : string) (l : list string) : string := String.concat sep l.

(** The longest prefix of [s] made of characters in [p], and the rest. *)
Fixpoint span (p : ascii -> bool) (s : string) : string * string :=
  match s with
  | EmptyString => (EmptyString, EmptyString)
  | String c s' =>
      if p c then let '(a, b) := span p s' in (String c a, b)
      else (EmptyString, s)
  end.

(** [str(n)] and [int(digits)] for a natural number.  The interpreter's
    limit on the number of digits of such a conversion (4300 by default) is
    not modelled. *)
Definition str_of_int (n : N) : string := NilEmpty.string_of_uint (N.to_uint n).

Definition digit_value (c : ascii) : N := code c - 48.

Definition int_of_digits (s : string) : N :=
  fold_left (fun acc c => (10 * acc + digit_value c)%N) (list_ascii_of_string s) 0%N.

(** [repr] of a [str] and of a list of [str]. *)
Definition quote1 : ascii := "039"%char.
Definition quote2 : ascii := "034"%char.
Definition backslash : ascii := "092"%char.

Definition has_char (q : ascii) (s : string) : bool :=
  existsb (Ascii.eqb q) (list_ascii_of_string s).

Definition repr_quote (s : string) : ascii :=
  if has_char quote1 s && negb (has_char quote2 s) then quote2 else quote1.

Definition hex_digit (n : N) : ascii :=
  if (n <? 10)%N then ascii_of_N (48 + n) else ascii_of_N (87 + n).

Definition repr_char (q c : ascii) : string :=
  if (c =? q)%char || (c =? backslash)%char then String backslash (String c EmptyString)
  else if (code c =? 9)%N then String backslash "t"
  else if (code c =? 10)%N then String backslash "n"
  else if (code c =? 13)%N then String backslash "r"
  else if isprintable c then String c EmptyString
  else String backslash
         (String "x" (String (hex_digit (code c / 16))
                        (String (hex_digit (code c mod 16)) EmptyString))).

Fixpoint repr_body (q : ascii) (s : string) : string :=
  match s with
  | EmptyString => EmptyString
  | String c s' => repr_char q c ++ repr_body q s'
  end.

Definition repr (s : string) : string :=
  let q := repr_quote s in
  String q (repr_body q s ++ String q EmptyString).

Definition repr_list (l : list string) : string :=
  "[" ++ join ", " (map repr l) ++ "]".

End Py.

(** ** The compiled patterns of the [regex] table

    Each pattern is written as the deterministic matcher it denotes under
    [re.match]: every repetition in these patterns is followed by a character
    outside its class (or by the end), so the greedy choice is the only one
    that can succeed.  A matcher returns the captured groups. *)

Module regex.
Import Py.

(** What is left of [s] after the literal [p], when [s] starts with it. *)
Definition after (p s : string) : option string :=
  if startswith s p then Some (drop (String.length p) s) else None.

(** [$]: the end of the text, or the line feed that ends the text. *)
Definition at_end (s : string) : bool :=
  (s =? EmptyString) || (s =? String LF EmptyString).

(** [(.+)$]: one or more characters other than the line feed, up to the end. *)
Definition dot_plus_end (s : string) : option string :=
  let '(a, b) := span (fun c => negb (c =? LF)%char) s in
  if nonempty a && at_end b then Some a else None.

(** [^item(\d+)\.(.+)$] *)
Definition vcard_grouped_field (s : string) : option (string * string) :=
  match after "item" s with
  | None => None
  | Some r =>
      match span isdigit r with
      | (ds, String c r2) =>
          if nonempty ds && (c =? ".")%char then
            match dot_plus_end r2 with
            | Some v => Some (ds, v)
            | None => None
            end
          else None
      | _ => None
      end
  end.

(** [^_\$!<([^>]+)>!\$_$] *)
Definition vcard_extra_label (s : string) : option string :=
  match after "_$!<" s with
  | None => None
  | Some r =>
      let '(inner, r1) := span (fun c => negb (c =? ">")%char) r in
      match after ">!$_" r1 with
      | Some r2 => if nonempty inner && at_end r2 then Some inner else None
      | None => None
      end
  end.

(** [^type=([A-Z]+)] *)
Definition vcard_comm_type_single (s : string) : option string :=
  match after "type=" s with
  | None => None
  | Some r =>
      let '(g, _) := span is_AZ r in
      if nonempty g then Some g else None
  end.

(** [:(.+)$] *)
Definition colon_value (s : string) : option string :=
  match s with
  | String c r => if (c =? ":")%char then dot_plus_end r else None
  | EmptyString => None
  end.

(** [^type=([a-zA-Z]+):(.+)$] *)
Definition vcard_comm_type_compound (s : string) : option (string * string) :=
  match after "type=" s with
  | None => None
  | Some r =>
      let '(g, r1) := span is_alpha r in
      if nonempty g then
        match colon_value r1 with
        | Some v => Some (g, v)
        | None => None
        end
      else None
  end.

(** [^type=([a-zA-Z]+)(?:;type=pref)?:(.+)$] *)
Definition vcard_comm_type_pref (s : string) : option (string * string) :=
  match after "type=" s with
  | None => None
  | Some r =>
      let '(g, r1) := span is_alpha r in
      let r2 := match after ";type=pref" r1 with Some r' => r' | None => r1 end in
      if nonempty g then
        match colon_value r2 with
        | Some v => Some (g, v)
        | None => None
        end
      else None
  end.

(** [X-APPLE-OMIT-YEAR=\d+:\d+-] at the start of [s]: what follows the match. *)
Definition yearless_at (s : string) : option string :=
  match after "X-APPLE-OMIT-YEAR=" s with
  | None => None
  | Some r =>
      match span isdigit r with
      | (d1, String c r1) =>
          if nonempty d1 && (c =? ":")%char then
            match span isdigit r1 with
            | (d2, String c' r2) =>
                if nonempty d2 && (c' =? "-")%char then Some r2 else None
            | _ => None
            end
          else None
      | _ => None
      end
  end.

(** [.*X-APPLE-OMIT-YEAR=\d+:\d+-] from the start of a line: the greedy [.*]
    stops at the last place of the line where the rest of the pattern matches.
    The result is what follows the match. *)
Fixpoint yearless_last (s : string) : option string :=
  match s with
  | EmptyString => None
  | String c s' =>
      if (c =? LF)%char then None
      else match yearless_last s' with
           | Some r => Some r
           | None => yearless_at s
           end
  end.

(** [regex["apple_yearless_date"].sub("", s)]: [.] does not cross a line feed,
    so every line of [s] loses at most one match, which starts the line. *)
Definition apple_yearless_date_sub (s : string) : string :=
  join (String LF EmptyString)
    (map (fun line => match yearless_last line with Some r => r | None => line end)
       (split LF s)).

Definition is_sep (c : ascii) : bool :=
  (c =? "-")%char || (c =? ".")%char || (c =? " ")%char.

(** An optional character of class [p]. *)
Definition opt (p : ascii -> bool) (s : string) : string :=
  match s with
  | String c s' => if p c then s' else s
  | EmptyString => s
  end.

(** [\d{n}] *)
Fixpoint digits (n : nat) (s : string) : option (string * string) :=
  match n with
  | O => Some (EmptyString, s)
  | S k =>
      match s with
      | String c s' =>
          if isdigit c then
            match digits k s' with
            | Some (a, r) => Some (String c a, r)
            | None => None
            end
          else None
      | EmptyString => None
      end
  end.

(** [(?:\(?(\d{3})\)?[-. ]?(\d{3})[-. ]?(\d{4}))$] *)
Definition phone_body (s : string) : option (string * string * string) :=
  match digits 3 (opt (Ascii.eqb "(") s) with
  | None => None
  | Some (g1, s1) =>
      match digits 3 (opt is_sep (opt (Ascii.eqb ")") s1)) with
      | None => None
      | Some (g2, s2) =>
          match digits 4 (opt is_sep s2) with
          | None => None
          | Some (g3, s3) => if at_end s3 then Some (g1, g2, g3) else None
          end
      end
  end.

(** [\+?1[-. ]?] *)
Definition phone_prefix (s : string) : option string :=
  match opt (Ascii.eqb "+") s with
  | String c s' => if (c =? "1")%char then Some (opt is_sep s') else None
  | EmptyString => None
  end.

(** [^(?:\+?1[-. ]?)?(?:\(?(\d{3})\)?[-. ]?(\d{3})[-. ]?(\d{4}))$]: the
    optional country prefix is tried first, and given up when the rest does
    not match after it. *)
Definition phone_format (s : string) : option (string * string * string) :=
  match phone_prefix s with
  | Some r =>
      match phone_body r with
      | Some g => Some g
      | None => phone_body s
      end
  | None => phone_body s
  end.

End regex.

(** ** Outcomes, configuration and parser state *)

Inductive exn : Type := IndexError | AttributeError.

Inductive outcome (A : Type) : Type :=
| Ok (a : A)
| Raise (e : exn).
Arguments Ok {A} a.
Arguments Raise {A} e.

Definition bind {A B : Type} (m : outcome A) (k : A -> outcome B) : outcome B :=
  match m with
  | Ok a => k a
  | Raise e => Raise e
  end.

Notation "x <- m ;; k" := (bind m (fun x => k))
  (at level 61, m at next level, right associativity).

(** [l[i]] for [i >= 0], and [l[-1]]. *)
Definition index {A : Type} (l : list A) (i : nat) : outcome A :=
  match nth_error l i with
  | Some x => Ok x
  | None => Raise IndexError
  end.

Definition index_last {A : Type} (l : list A) : outcome A :=
  match rev l with
  | x :: _ => Ok x
  | [] => Raise IndexError
  end.

(** [s[0]] on a [str]: a one-character [str]. *)
Definition char0 (s : string) : outcome string :=
  match s with
  | String c _ => Ok (String c EmptyString)
  | EmptyString => Raise IndexError
  end.

(** A loop whose body may raise. *)
Fixpoint for_each {A S : Type} (body : S -> A -> outcome S) (l : list A) (s : S)
  : outcome S :=
  match l with
  | [] => Ok s
  | x :: xs => s' <- body s x ;; for_each body xs s'
  end.

Record config : Type := {
  preferred : bool;        (* parse_vcard.preferred *)
  address_enabled : bool;  (* format_address.enabled *)
  phone_enabled : bool;    (* format_phone.enabled *)
  reorder_enabled : bool   (* custom_column_ordering.enabled *)
}.

Definition pair_t : Type := (string * string)%type.

(** The variables of one iteration of the entry loop of [parse_vcard].
    [groups] is a [dict] with [int] keys, kept in insertion order. *)
Record pstate : Type := {
  skip_photo : bool;
  groups : list (N * list string);
  save : list pair_t;
  unknown_name : string;
  unknown : list string
}.

Definition init_state : pstate :=
  {| skip_photo := false; groups := []; save := [];
     unknown_name := EmptyString; unknown := [] |}.

Definition set_skip (b : bool) (st : pstate) : pstate :=
  {| skip_photo := b; groups := groups st; save := save st;
     unknown_name := unknown_name st; unknown := unknown st |}.

Definition set_groups (g : list (N * list string)) (st : pstate) : pstate :=
  {| skip_photo := skip_photo st; groups := g; save := save st;
     unknown_name := unknown_name st; unknown := unknown st |}.

Definition set_save (sv : list pair_t) (st : pstate) : pstate :=
  {| skip_photo := skip_photo st; groups := groups st; save := sv;
     unknown_name := unknown_name st; unknown := unknown st |}.

Definition set_unknown_name (n : string) (st : pstate) : pstate :=
  {| skip_photo := skip_photo st; groups := groups st; save := save st;
     unknown_name := n; unknown := unknown st |}.

Definition set_unknown (u : list string) (st : pstate) : pstate :=
  {| skip_photo := skip_photo st; groups := groups st; save := save st;
     unknown_name := unknown_name st; unknown := u |}.

(** [save.append((label, value))] *)
Definition emit (p : pair_t) (st : pstate) : pstate := set_save (save st ++ [p])%list st.

(** [if key not in groups: groups[key] = []] then [groups[key].append(value)] *)
Fixpoint groups_append (key : N) (value : string) (g : list (N * list string))
  : list (N * list string) :=
  match g with
  | [] => [(key, [value])]
  | (k, vs) :: g' =>
      if (k =? key)%N then (k, (vs ++ [value])%list) :: g'
      else (k, vs) :: groups_append key value g'
  end.

(** [x in l] for a list of [str]. *)
Definition mem (x : string) (l : list string) : bool := existsb (String.eqb x) l.

(** ** The formatters *)

Section Parser.
Import Py.

Variable cfg : config.
Variable debug : bool.

Definition format_address (address : string) : string :=
  if address_enabled cfg then
    join ", " (map strip (filter (fun comp => nonempty (strip comp)) (split ";" address)))
  else address.

Definition format_phone (phone : string) : string :=
  if phone_enabled cfg then
    match regex.phone_format phone with
    | Some (g1, g2, g3) => g1 ++ "-" ++ g2 ++ "-" ++ g3
    | None => phone
    end
  else phone.

(** ** The line rules of [parse_vcard]

    Every rule takes the trimmed line and the state and gives the state after
    the rule's body, up to its [continue]. *)

(** [if parts[i]: save.append((label, parts[i]))] *)
Definition emit_part (label : string) (parts : list string) (i : nat) (st : pstate)
  : outcome pstate :=
  p <- index parts i ;;
  Ok (if nonempty p then emit (label, p) st else st).

(** [field.split(":", 1)[1].strip()] *)
Definition value_of (field : string) : outcome string :=
  v <- index (split1 ":" field) 1 ;; Ok (strip v).

(** [save.append((label, field.split(":", 1)[1].strip()))] *)
Definition simple_rule (label field : string) (st : pstate) : outcome pstate :=
  v <- value_of field ;; Ok (emit (label, v) st).

Definition n_rule (field : string) (st : pstate) : outcome pstate :=
  v <- value_of field ;;
  let parts := split ";" v in
  st <- emit_part "Name: Last" parts 0 st ;;
  st <- emit_part "Name: First" parts 1 st ;;
  st <- emit_part "Name: Middle" parts 2 st ;;
  st <- emit_part "Name: Prefix" parts 3 st ;;
  emit_part "Name: Suffix" parts 4 st.

Definition fn_rule (field : string) (st : pstate) : outcome pstate :=
  v <- value_of field ;;
  let st := emit ("Name: Full", v) st in
  Ok (if debug then set_unknown_name ("Name (Full): " ++ v) st else st).

Definition org_rule (field : string) (st : pstate) : outcome pstate :=
  let parts := split ";" (drop 4 field) in
  st <- emit_part "Organization: Name" parts 0 st ;;
  emit_part "Organization: Department" parts 1 st.

(** [field.split(";", 1)[1].strip().split(";")] *)
Definition params_of (field : string) : outcome (list string) :=
  v <- index (split1 ";" field) 1 ;; Ok (split ";" (strip v)).

(** The first loop of the [EMAIL;] rule: the last single type token other than
    [INTERNET], capitalised. *)
Definition email_label (parts : list string) : string :=
  fold_left
    (fun label entry =>
       match regex.vcard_comm_type_single (strip entry) with
       | Some g => if negb (g =? "INTERNET") then capitalize g else label
       | None => label
       end)
    parts EmptyString.

(** The second loop of the [EMAIL;] rule. *)
Definition email_emit (label : string) (parts : list string) (st : pstate) : pstate :=
  fold_left
    (fun st entry =>
       match regex.vcard_comm_type_compound (strip entry) with
       | Some (g1, g2) =>
           let st := emit ("Email: " ++ label, g2) st in
           if preferred cfg && (lower g1 =? "pref")
           then emit ("Email: " ++ label ++ " (Preferred)", g2) st
           else st
       | None => st
       end)
    parts st.

Definition email_rule (field : string) (st : pstate) : outcome pstate :=
  parts <- params_of field ;;
  Ok (email_emit (email_label parts) parts st).

(** The first loop of the [TEL;] rule. *)
Definition tel_labels (parts : list string) : list string :=
  fold_left
    (fun labels entry =>
       match regex.vcard_comm_type_single (strip entry) with
       | Some g =>
           if negb (capitalize g =? "Voice") then (labels ++ [capitalize g])%list else labels
       | None => labels
       end)
    parts [].

(** [for label in candidates: if label in labels: label_select = f"{family}: {label}"] *)
Definition select_among (family : string) (candidates labels : list string)
  (label_select : string) : string :=
  fold_left
    (fun sel label => if mem label labels then family ++ ": " ++ label else sel)
    candidates label_select.

(** The [if]/[elif] chain that computes [label_select]. *)
Definition tel_label_select (labels : list string) : string :=
  let label_select := EmptyString in
  if mem "Pager" labels then "Pager"
  else if mem "Fax" labels then
    select_among "Fax" ["Home"; "Work"; "Other"] labels label_select
  else if mem "Applewatch" labels then "Phone: Apple Watch"
  else if mem "Iphone" labels then "Phone: iPhone"
  else if mem "Cell" labels then "Phone: Cell"
  else select_among "Phone" ["Home"; "Work"; "Other"; "Main"] labels label_select.

(** The body of the second loop of the [TEL;] rule; the loop state is the
    list [labels] and the parser state. *)
Definition tel_step (acc : list string * pstate) (entry : string)
  : list string * pstate :=
  let '(labels, st) := acc in
  match regex.vcard_comm_type_compound (strip entry) with
  | Some (g1, g2) =>
      let labels :=
        if negb (capitalize g1 =? "Voice") then (labels ++ [capitalize g1])%list else labels in
      let label_select := tel_label_select labels in
      let st := emit (label_select, format_phone g2) st in
      (labels,
       if preferred cfg && (lower g1 =? "pref")
       then emit (label_select ++ " (Preferred)", format_phone g2) st
       else st)
  | None => (labels, st)
  end.

Definition tel_rule (field : string) (st : pstate) : outcome pstate :=
  parts <- params_of field ;;
  Ok (snd (fold_left tel_step parts (tel_labels parts, st))).

(** The address lines shared by the [ADR;] rule and by the [X-ABADR] branch of
    the resolver: [line] is the text the pattern is applied to and in which
    [";type=pref:"] is looked for. *)
Definition address_emit (line : string) (st : pstate) : outcome pstate :=
  v <- index (split1 ";" line) 1 ;;
  match regex.vcard_comm_type_pref (strip v) with
  | None => Raise AttributeError
  | Some (g1, g2) =>
      let label := capitalize g1 in
      let st := emit ("Address: " ++ label, format_address g2) st in
      Ok (if preferred cfg && contains line ";type=pref:"
          then emit ("Address: " ++ label ++ " (Preferred)", format_address g2) st
          else st)
  end.

Definition adr_rule (field : string) (st : pstate) : outcome pstate :=
  address_emit field st.

(** The [X-SOCIALPROFILE;] and [URL;] rules, which differ in the label family. *)
Definition typed_rule (family field : string) (st : pstate) : outcome pstate :=
  v <- index (split1 ";" field) 1 ;;
  let parts := split1 ":" (strip v) in
  p0 <- index parts 0 ;;
  t <- index (split "=" p0) 1 ;;
  let label := strip (capitalize t) in
  p1 <- index parts 1 ;;
  Ok (emit (family ++ ": " ++ label, strip p1) st).

Definition bday_rule (field : string) (st : pstate) : outcome pstate :=
  a <- index_last (split1 ";" field) ;;
  b <- index_last (split1 ":" (regex.apple_yearless_date_sub (strip a))) ;;
  Ok (emit ("Date: Birthday", strip b) st).

Definition unknown_rule (field : string) (st : pstate) : pstate :=
  let st := emit ("Unknown", field) st in
  if debug then set_unknown (unknown st ++ [field])%list st else st.

(** The body of the line loop after [field = field.strip()]. *)
Definition classify_field (field : string) (st : pstate) : outcome pstate :=
  if startswith field "BEGIN:VCARD" || startswith field "END:VCARD" then Ok st
  else if existsb (startswith field)
            ["VERSION:"; "PRODID:"; "VND-63-SENSITIVE-CONTENT-CONFIG:"] then Ok st
  else if field =? "X-ABShowAs:COMPANY" then Ok (emit ("Is Company", "X") st)
  else if startswith field "N:" then n_rule field st
  else if startswith field "FN:" then fn_rule field st
  else if startswith field "NICKNAME:" then simple_rule "Name: Nickname" field st
  else if startswith field "X-MAIDENNAME:" then simple_rule "Name: Maiden" field st
  else if startswith field "X-PHONETIC-FIRST-NAME:"
       then simple_rule "Name: First (Phonetic)" field st
  else if startswith field "X-PHONETIC-MIDDLE-NAME:"
       then simple_rule "Name: Middle (Phonetic)" field st
  else if startswith field "X-PHONETIC-LAST-NAME:"
       then simple_rule "Name: Last (Phonetic)" field st
  else if startswith field "ORG:" then org_rule field st
  else if startswith field "X-PHONETIC-ORG:"
       then simple_rule "Organization: Name (Phonetic)" field st
  else if startswith field "TITLE:" then simple_rule "Organization: Title" field st
  else if startswith field "EMAIL;" then email_rule field st
  else if startswith field "TEL;" then tel_rule field st
  else if startswith field "ADR;" then adr_rule field st
  else if startswith field "X-SOCIALPROFILE;" then typed_rule "Social" field st
  else if startswith field "NOTE:" then simple_rule "Note" field st
  else if startswith field "URL;" then typed_rule "URL" field st
  else if startswith field "BDAY" then bday_rule field st
  else
    match regex.vcard_grouped_field field with
    | Some (key, value) =>
        Ok (set_groups (groups_append (int_of_digits key) value (groups st)) st)
    | None => Ok (unknown_rule field st)
    end.

(** One iteration of [for field in fields]. *)
Definition classify (st : pstate) (field : string) : outcome pstate :=
  if startswith (strip field) "PHOTO;" then Ok (set_skip true st)
  else if skip_photo st && startswith field " " then Ok st
  else classify_field (strip field) (set_skip false st).

(** ** The grouped-field resolver *)

(** [f"Item Group: {group}, Values: {groups[group]}"] *)
Definition group_text (group : N) (values : list string) : string :=
  "Item Group: " ++ str_of_int group ++ ", Values: " ++ repr_list values.

(** [if parse_vcard.preferred and data[0].endswith("pref")] where [data] has
    been rebound to the [str] after the colon: [data[0]] is its first
    character. *)
Definition pref_of_value (label value data : string) (st : pstate) : outcome pstate :=
  if preferred cfg then
    c <- char0 data ;;
    Ok (if endswith c "pref" then emit (label ++ " (Preferred)", value) st else st)
  else Ok st.

(** The lines of the resolver from the extra-label match to the end of the
    loop body. *)
Definition dispatch (group : N) (values : list string) (label data : string)
  (st : pstate) : outcome pstate :=
  let label :=
    match regex.vcard_extra_label label with
    | Some inner => strip inner
    | None => label
    end in
  if startswith data "EMAIL;" then
    v <- index (split1 ";" data) 1 ;;
    let data := split1 ":" (strip v) in
    d1 <- index data 1 ;;
    let st := emit ("Email: " ++ label, strip d1) st in
    if preferred cfg then
      d0 <- index data 0 ;;
      Ok (if endswith d0 "pref"
          then emit ("Email: " ++ label ++ " (Preferred)", strip d1) st
          else st)
    else Ok st
  else if startswith data "TEL:" || startswith data "TEL;" then
    data <- value_of data ;;
    pref_of_value ("Phone: " ++ label) (format_phone data) data
      (emit ("Phone: " ++ label, format_phone data) st)
  else if startswith data "ADR:" || startswith data "ADR;" then
    data <- value_of data ;;
    pref_of_value ("Address: " ++ label) (format_address data) data
      (emit ("Address: " ++ label, format_address data) st)
  else if startswith data "URL:" || startswith data "URL;" then
    data <- value_of data ;;
    pref_of_value ("URL: " ++ label) data data (emit ("URL: " ++ label, data) st)
  else if startswith data "X-AIM" || startswith data "X-JABBER"
          || startswith data "X-MSN" || startswith data "X-YAHOO"
          || startswith data "X-ICQ" then Ok st
  else if startswith data "IMPP;" then
    data <- value_of data ;;
    v <- value_of data ;;
    pref_of_value ("IMPP: " ++ label) data data (emit ("IMPP: " ++ label, v) st)
  else if startswith data "X-ABDATE:" || startswith data "X-ABDATE;" then
    if contains data "X-APPLE-OMIT-YEAR" then
      Ok (emit ("Date: " ++ label, strip (regex.apple_yearless_date_sub data)) st)
    else
      v <- value_of data ;; Ok (emit ("Date: " ++ label, v) st)
  else if startswith data "X-ABRELATEDNAMES:" || startswith data "X-ABRELATEDNAMES;" then
    v <- value_of data ;; Ok (emit ("Relationship: " ++ label, v) st)
  else
    let st := emit ("Unknown", group_text group values) st in
    Ok (if debug then set_unknown (unknown st ++ [group_text group values])%list st
        else st).

(** One iteration of [for group in groups]. *)
Definition resolve_group (st : pstate) (item : N * list string) : outcome pstate :=
  let '(group, values) := item in
  g1 <- index values 1 ;;
  if startswith g1 "X-ABLabel:" then
    label <- index (split_str "X-ABLabel:" g1) 1 ;;
    data <- index values 0 ;;
    dispatch group values label data st
  else
    g0 <- index values 0 ;;
    if startswith g0 "X-ABLabel:" then
      label <- index (split_str "X-ABLabel:" g0) 1 ;;
      dispatch group values label g1 st
    else if startswith g0 "X-ABADR:" || startswith g1 "X-ABADR:" then
      address_emit (if startswith g1 "X-ABADR:" then g0 else g1) st
    else
      dispatch group values EmptyString EmptyString
        (emit ("Unknown", group_text group values) st).

(** [for group in groups: ...] *)
Definition resolve_groups (st : pstate) : outcome pstate :=
  for_each resolve_group (groups st) st.

(** ** Entries and files *)

(** [for field in fields: ...] *)
Definition classify_fields (fields : list string) (st : pstate) : outcome pstate :=
  for_each classify fields st.

(** The body of the entry loop on the lines [fields] of one entry: the final
    state, whose [save] is appended to [output]. *)
Definition parse_fields (fields : list string) : outcome pstate :=
  st <- classify_fields fields init_state ;;
  resolve_groups st.

Definition parse_entry (entry : string) : outcome (list pair_t) :=
  st <- parse_fields (splitlines entry) ;; Ok (save st).

(** [[entry.strip() + "\nEND:VCARD" for entry in content.split("END:VCARD") if entry.strip()]] *)
Definition entries_of (content : string) : list string :=
  map (fun entry => strip entry ++ String LF "END:VCARD")
    (filter (fun entry => nonempty (strip entry)) (split_str "END:VCARD" content)).

(** [parse_vcard] from the text read from the file. *)
Definition parse_vcard (content : string) : outcome (list (list pair_t)) :=
  for_each (fun output entry => sv <- parse_entry entry ;; Ok (output ++ [sv])%list)
    (entries_of content) [].

End Parser.

(** ** Column ordering *)

Section ColumnOrdering.
Import Py.

Definition field_order_init : list string :=
  [ "Is Company";
    "Organization: Name";
    "Organization: Name (Phonetic)";
    "Organization: Department";
    "Title";
    "Name: Full";
    "Name: Prefix";
    "Name: First";
    "Name: Middle";
    "Name: Last";
    "Name: Maiden";
    "Name: Suffix";
    "Name: First (Phonetic)";
    "Name: Middle (Phonetic)";
    "Name: Last (Phonetic)";
    "Nickname";
    "Phone: iPhone";
    "Phone: iPhone (Preferred)";
    "Phone: Cell";
    "Phone: Cell (Preferred)";
    "Phone: Work";
    "Phone: Work (Preferred)";
    "Phone: Home";
    "Phone: Home (Preferred)" ].

Definition field_order2 : list string :=
  [ "Email: Work";
    "Email: Work (Preferred)";
    "Email: Home";
    "Email: Home (Preferred)" ].

Definition prefixes1 : list string := ["Phone"; "Pager"; "Fax"].
Definition prefixes2 : list string := ["Email"; "Address"; "Date"; "Relationship"].

(** [[field for field in unique_headers if field.startswith(prefix)]] *)
Definition selected (unique_headers : list string) (prefix : string) : list string :=
  filter (fun field => startswith field prefix) unique_headers.

(** The first pair of nested loops: a selected field is appended unless it is
    already in [field_order]. *)
Definition extend1 (unique_headers field_order : list string) : list string :=
  fold_left
    (fun field_order prefix =>
       fold_left
         (fun field_order selected_field =>
            if mem selected_field field_order then field_order
            else (field_order ++ [selected_field])%list)
         (selected unique_headers prefix) field_order)
    prefixes1 field_order.

(** The second pair of nested loops: a selected field is appended unless it is
    in [field_order2]. *)
Definition extend2 (unique_headers field_order : list string) : list string :=
  fold_left
    (fun field_order prefix =>
       fold_left
         (fun field_order selected_field =>
            if mem selected_field field_order2 then field_order
            else (field_order ++ [selected_field])%list)
         (selected unique_headers prefix) field_order)
    prefixes2 field_order.

(** [field_order] as it stands before the last loop. *)
Definition field_order_of (unique_headers : list string) : list string :=
  extend2 unique_headers (extend1 unique_headers field_order_init ++ field_order2)%list.

(** [list.remove(x)] when [x] is in the list: the first occurrence goes. *)
Fixpoint remove_first (x : string) (l : list string) : list string :=
  match l with
  | [] => []
  | y :: l' => if (y =? x) then l' else y :: remove_first x l'
  end.

(** The last loop; its state is [headers] and the list object
    [unique_headers] it removes from. *)
Definition pick (acc : list string * list string) (field : string)
  : list string * list string :=
  let '(headers, unique_headers) := acc in
  if mem field unique_headers
  then ((headers ++ [field])%list, remove_first field unique_headers)
  else (headers, unique_headers).

(** [custom_column_ordering(unique_headers)]: the list returned, and the
    content of the list object passed in when the call returns. *)
Definition custom_column_ordering (cfg : config) (unique_headers : list string)
  : list string * list string :=
  if negb (reorder_enabled cfg) then (unique_headers, unique_headers)
  else
    let '(headers, unique_headers) :=
      fold_left pick (field_order_of unique_headers) ([], unique_headers) in
    ((headers ++ unique_headers)%list, unique_headers).

End ColumnOrdering.

(** ** The renderers: headers, CSV rows, console text, JSON clean-up

    What the three renderers compute before they hand text to [csv], [json]
    or [print].  The writers themselves belong to the Python library and are
    not modelled. *)

Section Renderers.
Import Py.

(** [label for sublist in save for label, _ in sublist] *)
Definition labels_of (save : list (list pair_t)) : list string :=
  flat_map (map fst) save.

(** Insertion into a strictly increasing list; an element already there is
    not added again. *)
Fixpoint insert_unique (x : string) (l : list string) : list string :=
  match l with
  | [] => [x]
  | y :: l' =>
      match String.compare x y with
      | Lt => x :: l
      | Eq => l
      | Gt => y :: insert_unique x l'
      end
  end.

(** [sorted(set(l))]: the strictly increasing list of the elements of [l]. *)
Definition sorted_set (l : list string) : list string :=
  fold_right insert_unique [] l.

(** [unique_headers] and [headers], as the three renderers compute them. *)
Definition unique_headers_of (save : list (list pair_t)) : list string :=
  sorted_set (labels_of save).

Definition headers_of (cfg : config) (save : list (list pair_t)) : list string :=
  fst (custom_column_ordering cfg (unique_headers_of save)).

(** [d[k] = v] on a [dict] with [str] keys, kept in insertion order. *)
Fixpoint dict_set {V : Type} (k : string) (v : V) (d : list (string * V))
  : list (string * V) :=
  match d with
  | [] => [(k, v)]
  | (k', v') :: d' =>
      if k' =? k then (k', v) :: d' else (k', v') :: dict_set k v d'
  end.

(** [d.get(k)] *)
Fixpoint dict_get {V : Type} (k : string) (d : list (string * V)) : option V :=
  match d with
  | [] => None
  | (k', v') :: d' => if k' =? k then Some v' else dict_get k d'
  end.

(** [s.replace(old, new)] for a non-empty [old]: [skip] counts the characters
    of an occurrence found that are still to be passed over. *)
Fixpoint replace_from (old new : string) (skip : nat) (s : string) : string :=
  match s with
  | EmptyString => EmptyString
  | String c s' =>
      match skip with
      | S k => replace_from old new k s'
      | O =>
          if String.prefix old s
          then new ++ replace_from old new (String.length old - 1) s'
          else String c (replace_from old new 0 s')
      end
  end.

Definition replace (old new s : string) : string := replace_from old new 0 s.

(** The two [replace] calls of [save_to_csv] on a value: backslash-n becomes
    CR LF, then every double quote is doubled. *)
Definition csv_escape (value : string) : string :=
  replace (String quote2 EmptyString) (String quote2 (String quote2 EmptyString))
    (replace (String backslash "n") (String CR (String LF EmptyString)) value).

(** [row_dict[label].append(v)] on a [defaultdict(list)] *)
Definition multi_append (k v : string) (d : list (string * list string))
  : list (string * list string) :=
  match dict_get k d with
  | Some vs => dict_set k (vs ++ [v])%list d
  | None => dict_set k [v] d
  end.

(** [row_dict[header]] read from the [defaultdict(list)] *)
Definition multi_get (k : string) (d : list (string * list string)) : list string :=
  match dict_get k d with
  | Some vs => vs
  | None => []
  end.

(** The loop of [save_to_csv] that fills [row_dict] for one contact. *)
Definition csv_row_dict (headers : list string) (sublist : list pair_t)
  : list (string * list string) :=
  fold_left
    (fun row_dict p =>
       if mem (fst p) headers then multi_append (fst p) (csv_escape (snd p)) row_dict
       else row_dict)
    sublist [].

(** [{header: ", ".join(row_dict[header]) for header in headers}] *)
Definition csv_row (headers : list string) (sublist : list pair_t)
  : list (string * string) :=
  let row_dict := csv_row_dict headers sublist in
  fold_left
    (fun d header => dict_set header (join ", " (multi_get header row_dict)) d)
    headers [].

(** The field names and the rows [save_to_csv] passes to the writer; [None]
    when it returns at once because [save] is empty. *)
Definition csv_table (cfg : config) (save : list (list pair_t))
  : option (list string * list (list (string * string))) :=
  match save with
  | [] => None
  | _ => let headers := headers_of cfg save in
         Some (headers, map (csv_row headers) save)
  end.

(** [dict(entry)]: a later pair replaces the value of an earlier one with the
    same label. *)
Definition dict_of_pairs (entry : list pair_t) : list (string * string) :=
  fold_left (fun d p => dict_set (fst p) (snd p) d) entry [].

(** The lines [print_to_console] prints for one contact. *)
Definition console_entry (headers : list string) (entry : list pair_t) : list string :=
  let entry_dict := dict_of_pairs entry in
  "New vCard Entry:"
  :: flat_map
       (fun label =>
          match dict_get label entry_dict with
          | Some value =>
              if nonempty value then ["  " ++ label ++ ": " ++ value] else []
          | None => []
          end)
       headers.

Definition print_to_console (cfg : config) (save : list (list pair_t)) : list string :=
  flat_map (console_entry (headers_of cfg save)) save.

(** The values [convert_single_item_lists] meets: texts, lists and
    dictionaries with text keys. *)
#[warnings="-register-all"]
Inductive json : Type :=
| JStr (s : string)
| JList (l : list json)
| JDict (d : list (string * json)).

(** Truthiness: a text, list or dictionary is true when it is not empty. *)
Definition truthy (j : json) : bool :=
  match j with
  | JStr s => nonempty s
  | JList l => match l with [] => false | _ => true end
  | JDict d => match d with [] => false | _ => true end
  end.

(** [convert_single_item_lists(data)]: the value returned; for a dictionary
    this is also the content of the dictionary passed in, which the function
    changes in place. *)
Fixpoint convert_single_item_lists (data : json) : json :=
  match data with
  | JStr s => JStr s
  | JList l =>
      match filter truthy l with
      | [item] => item
      | data' => JList data'
      end
  | JDict d =>
      JDict
        (flat_map
           (fun kv =>
              let cleaned_value := convert_single_item_lists (snd kv) in
              if truthy cleaned_value then [(fst kv, cleaned_value)] else [])
           d)
  end.

End Renderers.

(** ** Definitions the statements below are written with *)

Import Py.

(** The pairs an entry with the lines [fields] appends to [output]. *)
Definition pairs_of (cfg : config) (debug : bool) (fields : list string)
  : outcome (list pair_t) :=
  st <- parse_fields cfg debug fields ;; Ok (save st).

(** The prefixes tested by the [startswith] rules of the line loop, in the
    order of the tests. *)
Definition rule_prefixes : list string :=
  [ "BEGIN:VCARD"; "END:VCARD"; "VERSION:"; "PRODID:";
    "VND-63-SENSITIVE-CONTENT-CONFIG:"; "N:"; "FN:"; "NICKNAME:";
    "X-MAIDENNAME:"; "X-PHONETIC-FIRST-NAME:"; "X-PHONETIC-MIDDLE-NAME:";
    "X-PHONETIC-LAST-NAME:"; "ORG:"; "X-PHONETIC-ORG:"; "TITLE:"; "EMAIL;";
    "TEL;"; "ADR;"; "X-SOCIALPROFILE;"; "NOTE:"; "URL;"; "BDAY" ].

(** A trimmed line matches a classification rule: one of the prefixes, the
    company marker, or the grouped-field pattern. *)
Definition matches_rule (field : string) : bool :=
  existsb (startswith field) rule_prefixes
  || (field =? "X-ABShowAs:COMPANY")
  || match regex.vcard_grouped_field field with Some _ => true | None => false end.

(** The label selection of the [TEL;] rule written as a priority list: the
    first test that holds gives the label. *)
Definition tel_priority (labels : list string) : string :=
  if mem "Pager" labels then "Pager"
  else if mem "Fax" labels then
    if mem "Other" labels then "Fax: Other"
    else if mem "Work" labels then "Fax: Work"
    else if mem "Home" labels then "Fax: Home"
    else EmptyString
  else if mem "Applewatch" labels then "Phone: Apple Watch"
  else if mem "Iphone" labels then "Phone: iPhone"
  else if mem "Cell" labels then "Phone: Cell"
  else if mem "Main" labels then "Phone: Main"
  else if mem "Other" labels then "Phone: Other"
  else if mem "Work" labels then "Phone: Work"
  else if mem "Home" labels then "Phone: Home"
  else EmptyString.

(** The candidate label a type token contributes: the token capitalised,
    unless that is [Voice]. *)
Definition candidate (token : string) : list string :=
  if capitalize token =? "Voice" then [] else [capitalize token].

(** The candidates collected from the parameters that start with [type=] and
    capital letters. *)
Definition single_candidates (parts : list string) : list string :=
  flat_map
    (fun entry =>
       match regex.vcard_comm_type_single (strip entry) with
       | Some g => candidate g
       | None => []
       end)
    parts.

(** The pairs of a [TEL;] line: one for each compound parameter
    [type=X:value], labelled from the candidates collected so far, and its
    preferred duplicate when [X] is [pref]. *)
Fixpoint tel_pairs (cfg : config) (labels parts : list string) : list pair_t :=
  match parts with
  | [] => []
  | entry :: rest =>
      match regex.vcard_comm_type_compound (strip entry) with
      | None => tel_pairs cfg labels rest
      | Some (x, value) =>
          let labels := (labels ++ candidate x)%list in
          let label := tel_priority labels in
          let dup :=
            if preferred cfg && (lower x =? "pref")
            then [(label ++ " (Preferred)", format_phone cfg value)]
            else [] in
          ((label, format_phone cfg value) :: dup ++ tel_pairs cfg labels rest)%list
      end
  end.

(** The number of parameters of the form [type=X:value]. *)
Definition compound_count (parts : list string) : nat :=
  List.length
    (filter
       (fun entry =>
          match regex.vcard_comm_type_compound (strip entry) with
          | Some _ => true
          | None => false
          end)
       parts).

(** The number of parameters of the form [type=X:value] where [X] is [pref]
    in any letter case. *)
Definition pref_count (parts : list string) : nat :=
  List.length
    (filter
       (fun entry =>
          match regex.vcard_comm_type_compound (strip entry) with
          | Some (x, _) => lower x =? "pref"
          | None => false
          end)
       parts).

(** A label is recognised by the priority arrangement when it is one of the
    names listed in it or starts with one of its prefixes. *)
Definition recognized (h : string) : bool :=
  mem h field_order_init || existsb (startswith h) prefixes1
  || mem h field_order2 || existsb (startswith h) prefixes2.

(** The order of [sorted] on [str]: code points, lexicographically. *)
Definition str_lt (a b : string) : Prop := String.ltb a b = true.

(** The line feed as a text, to write the content of a file. *)
Definition nl : string := String LF EmptyString.

(** The pairs of an [N:] line: the components that are not empty, under the
    labels of their positions. *)
Definition name_pairs (p0 p1 p2 p3 p4 : string) : list pair_t :=
  filter (fun p => nonempty (snd p))
    [ ("Name: Last", p0); ("Name: First", p1); ("Name: Middle", p2);
      ("Name: Prefix", p3); ("Name: Suffix", p4) ].

(** The rules that store the text after their prefix under a fixed label. *)
Definition value_rules : list (string * string) :=
  [ ("FN:", "Name: Full");
    ("NICKNAME:", "Name: Nickname");
    ("X-MAIDENNAME:", "Name: Maiden");
    ("X-PHONETIC-FIRST-NAME:", "Name: First (Phonetic)");
    ("X-PHONETIC-MIDDLE-NAME:", "Name: Middle (Phonetic)");
    ("X-PHONETIC-LAST-NAME:", "Name: Last (Phonetic)");
    ("X-PHONETIC-ORG:", "Organization: Name (Phonetic)");
    ("TITLE:", "Organization: Title");
    ("NOTE:", "Note") ].

(** The wrapper Apple puts around its own labels. *)
Definition wrap_label (inner : string) : string := "_$!<" ++ inner ++ ">!$_".

(** Every character of a text is white space. *)
Definition blank (s : string) : bool := forallb isspace (list_ascii_of_string s).

(** A text that is not empty and neither starts nor ends with white space. *)
Definition trimmed (s : string) : Prop :=
  match s with
  | EmptyString => False
  | String c _ => isspace c = false
  end /\ rstrip s = s.

(** A state reached from another by appending pairs only: the groups are the
    same and the pairs of the first are still there, in front. *)
Definition only_appends (st st' : pstate) : Prop :=
  groups st' = groups st /\ exists ps, save st' = (save st ++ ps)%list.

(** The groups table as a [dict]: no key twice, and a value list is never
    empty. *)
Definition groups_ok (g : list (N * list string)) : Prop :=
  NoDup (map fst g) /\ Forall (fun item => snd item <> []) g.

(** Two states that differ at most in what the debug report is printed
    from. *)
Definition same_result (st1 st2 : pstate) : Prop :=
  skip_photo st1 = skip_photo st2 /\ groups st1 = groups st2 /\ save st1 = save st2.

(** Outcomes that raise the same exception or end in states with the same
    result. *)
Definition same_outcome (o1 o2 : outcome pstate) : Prop :=
  match o1, o2 with
  | Ok st1, Ok st2 => same_result st1 st2
  | Raise e1, Raise e2 => e1 = e2
  | _, _ => False
  end.

(** A text made of decimal digits only. *)
Definition all_digits (s : string) : bool := forallb isdigit (list_ascii_of_string s).

(** No dictionary, at any depth below dictionaries, holds an empty text, list
    or dictionary. *)
Fixpoint no_empty_value (j : json) : bool :=
  match j with
  | JDict d => forallb (fun kv => truthy (snd kv) && no_empty_value (snd kv)) d
  | _ => true
  end.

(** Every list, at any depth below dictionaries, holds texts only. *)
Fixpoint lists_of_texts (j : json) : bool :=
  match j with
  | JStr _ => true
  | JList l => forallb (fun x => match x with JStr _ => true | _ => false end) l
  | JDict d => forallb (fun kv => lists_of_texts (snd kv)) d
  end.

(** The settings with every option off, and with every option on. *)
Definition cfg_off : config :=
  {| preferred := false; address_enabled := false; phone_enabled := false;
     reorder_enabled := false |}.

Definition cfg_on : config :=
  {| preferred := true; address_enabled := true; phone_enabled := true;
     reorder_enabled := true |}.

(** ** Concrete runs *)

(** Runs the embedding for every setting of the options. *)
Ltac by_run :=
  intros;
  repeat match goal with
         | c : config |- _ => destruct c as [[] [] [] []]
         | b : bool |- _ => destruct b
         end;
  vm_compute; repeat split; try reflexivity.

(** Closes the side condition of [strip_prefix]: the prefix has no white
    space in it. *)
Ltac no_space :=
  let Hin := fresh "Hin" in
  simpl; intros ? Hin; repeat destruct Hin as [<-|Hin]; try reflexivity; contradiction.

(** C1: a malformed line does not degrade to an [Unknown] pair.  An [N:] line
    with fewer than five components raises [IndexError] at the first missing
    component, and an [ADR;] line whose parameter block does not match the
    type pattern raises [AttributeError]; neither is caught, so the whole
    [parse_vcard] call ends with the exception. *)
Theorem malformed_line_raises : forall cfg debug,
  pairs_of cfg debug ["N:Doe;John"] = Raise IndexError /\
  pairs_of cfg debug ["ADR;HOME:;;1 Main St"] = Raise AttributeError /\
  parse_vcard cfg debug
    ("BEGIN:VCARD" ++ nl ++ "N:Doe;John" ++ nl ++ "END:VCARD" ++ nl)
  = Raise IndexError.
Proof. by_run. Qed.

(** C2: a group with a single collected value makes the resolver raise
    [IndexError] when it reads the second value; and a group with three values
    whose first two resolve emits the resolved pair only, with no [Unknown]
    pair for the value left over. *)
Theorem short_group_raises : forall cfg debug,
  pairs_of cfg debug ["item1.TEL:555-000-1111"] = Raise IndexError /\
  pairs_of cfg debug
    ["item1.X-ABLabel:Work"; "item1.TEL:555-000-1111"; "item1.TEL:555-000-2222"]
  = Ok [("Phone: Work", "555-000-1111")].
Proof. by_run. Qed.

(** C3: with preferred duplication on, a grouped [TEL;], [ADR;] or [URL;] line
    whose parameter token ends with [pref] yields the labelled pair alone: no
    pair with the [(Preferred)] suffix is emitted. *)
Theorem grouped_pref_not_duplicated : forall a ph r debug,
  let cfg := {| preferred := true; address_enabled := a; phone_enabled := ph;
                reorder_enabled := r |} in
  pairs_of cfg debug ["item1.TEL;type=pref:555-000-1111"; "item1.X-ABLabel:Work"]
  = Ok [("Phone: Work", "555-000-1111")] /\
  pairs_of cfg debug ["item1.ADR;type=pref:;;1 Main St"; "item1.X-ABLabel:Work"]
  = Ok [("Address: Work", format_address cfg ";;1 Main St")] /\
  pairs_of cfg debug ["item1.URL;type=pref:http://example.org"; "item1.X-ABLabel:Work"]
  = Ok [("URL: Work", "http://example.org")].
Proof. by_run. Qed.

(** C8: the entry made of the lines [item1.X-ABLabel:_$!<Assistant>!$_] and
    [item1.TEL:555-000-1111] collects both values under group 1, the wrapper
    of the label is unwrapped to [Assistant], and the resolver emits exactly
    the pair ("Phone: Assistant", "555-000-1111"), whatever the order of the
    two lines and the settings. *)
Theorem assistant_group_resolved : forall cfg debug,
  classify_fields cfg debug
    ["item1.X-ABLabel:_$!<Assistant>!$_"; "item1.TEL:555-000-1111"] init_state
  = Ok (set_groups [(1%N, ["X-ABLabel:_$!<Assistant>!$_"; "TEL:555-000-1111"])]
          init_state) /\
  regex.vcard_extra_label "_$!<Assistant>!$_" = Some "Assistant" /\
  pairs_of cfg debug ["item1.X-ABLabel:_$!<Assistant>!$_"; "item1.TEL:555-000-1111"]
  = Ok [("Phone: Assistant", "555-000-1111")] /\
  pairs_of cfg debug ["item1.TEL:555-000-1111"; "item1.X-ABLabel:_$!<Assistant>!$_"]
  = Ok [("Phone: Assistant", "555-000-1111")] /\
  parse_vcard cfg debug
    ("BEGIN:VCARD" ++ nl ++ "item1.X-ABLabel:_$!<Assistant>!$_" ++ nl
     ++ "item1.TEL:555-000-1111" ++ nl ++ "END:VCARD" ++ nl)
  = Ok [[("Phone: Assistant", "555-000-1111")]].
Proof. by_run. Qed.

(** C10: there is a line starting with [TEL;], none of whose type tokens is
    Pager, Fax, Applewatch, Iphone, Cell, Home, Work, Other or Main, for which
    the classifier emits a pair whose label is the empty text. *)
Theorem tel_label_may_be_empty : forall cfg debug,
  exists line parts value,
    startswith line "TEL;" = true /\
    params_of line = Ok parts /\
    forallb (fun l => negb (mem l (single_candidates parts)))
      ["Pager"; "Fax"; "Applewatch"; "Iphone"; "Cell"; "Home"; "Work"; "Other"; "Main"]
    = true /\
    pairs_of cfg debug [line] = Ok [(EmptyString, value)].
Proof.
  intros cfg debug.
  exists "TEL;type=CUSTOM:555-1234", ["type=CUSTOM:555-1234"], "555-1234".
  revert cfg debug. by_run.
Qed.

(** C4, as stated, fails: a pager number is labelled [Pager], not
    [Phone: Pager], and of Home and Work the later one in the list gives the
    label. *)
Lemma tel_label_counterexample :
  pairs_of cfg_off false ["TEL;type=PAGER:555-1234"] = Ok [("Pager", "555-1234")] /\
  pairs_of cfg_off false ["TEL;type=PAGER:555-1234"] <> Ok [("Phone: Pager", "555-1234")] /\
  pairs_of cfg_off false ["TEL;type=HOME;type=WORK:555-1234"]
  = Ok [("Phone: Work", "555-1234")].
Proof. vm_compute. repeat split; try reflexivity. discriminate. Qed.

(** C5, as stated, fails: with reordering on, the list passed in has lost the
    labels that were placed when the call returns. *)
Lemma column_ordering_mutates_counterexample :
  custom_column_ordering cfg_on ["Is Company"; "Note"]
  = (["Is Company"; "Note"], ["Note"]) /\
  snd (custom_column_ordering cfg_on ["Is Company"; "Note"]) <> ["Is Company"; "Note"].
Proof. vm_compute. split; [reflexivity | discriminate]. Qed.

(** C6, as stated, fails: after a photo block, a [TEL;] line without a
    compound parameter yields no pair, and one with two compound parameters
    yields two pairs although preferred duplication is off. *)
Lemma photo_then_tel_counterexample :
  pairs_of cfg_off false ["PHOTO;ENCODING=b;TYPE=JPEG:/9j/4AAQSkZJRg"; " ABAQAAAQABAAD"; "TEL;type=CELL"]
  = Ok [] /\
  pairs_of cfg_off false
    ["PHOTO;ENCODING=b;TYPE=JPEG:/9j/4AAQSkZJRg"; " ABAQAAAQABAAD";
     "TEL;type=HOME:555-1234;type=WORK:555-5678"]
  = Ok [("Phone: Work", "555-1234"); ("Phone: Work", "555-5678")].
Proof. vm_compute. split; reflexivity. Qed.

(** ** Records and outcomes *)

Lemma set_skip_same : forall st, set_skip (skip_photo st) st = st.
Proof. intros []; reflexivity. Qed.

Lemma set_skip_twice : forall a b st, set_skip a (set_skip b st) = set_skip a st.
Proof. intros a b []; reflexivity. Qed.

Lemma unknown_rule_save : forall debug field st,
  save (unknown_rule debug field st) = (save st ++ [("Unknown", field)])%list.
Proof. intros [] field []; reflexivity. Qed.

Lemma unknown_rule_groups : forall debug field st,
  groups (unknown_rule debug field st) = groups st.
Proof. intros [] field []; reflexivity. Qed.

Lemma unknown_rule_skip : forall debug field st,
  skip_photo (unknown_rule debug field st) = skip_photo st.
Proof. intros [] field []; reflexivity. Qed.

(** ** Lines that match no rule *)

(** A trimmed line that matches no rule reaches the last statement of the
    loop body. *)
Lemma classify_field_unknown : forall cfg debug field st,
  matches_rule field = false ->
  classify_field cfg debug field st = Ok (unknown_rule debug field st).
Proof.
  intros cfg debug field st H.
  unfold matches_rule, rule_prefixes in H. simpl existsb in H.
  repeat match goal with
         | E : (_ || _) = false |- _ => apply orb_false_elim in E; destruct E
         end.
  destruct (regex.vcard_grouped_field field) eqn:G; [discriminate|].
  unfold classify_field. simpl existsb.
  repeat match goal with
         | E : startswith _ _ = false |- _ => rewrite E; clear E
         | E : (_ =? _) = false |- _ => rewrite E; clear E
         end.
  rewrite G. reflexivity.
Qed.

(** C7: a line that is not skipped (it does not open a photo block and is not
    a continuation line under an open one) and whose trimmed text matches no
    classification rule, the grouped-field pattern included, is classified
    without error into exactly one more pair, ("Unknown", trimmed line); the
    groups are left as they were.  The pair is a function of the line alone:
    classifying the same line once more appends the same pair again.  The
    line loop trims a line before it matches and stores it. *)
Theorem unmatched_line_is_unknown : forall cfg debug st line,
  startswith (strip line) "PHOTO;" = false ->
  skip_photo st && startswith line " " = false ->
  matches_rule (strip line) = false ->
  exists st1 st2,
    classify cfg debug st line = Ok st1 /\
    save st1 = (save st ++ [("Unknown", strip line)])%list /\
    groups st1 = groups st /\
    skip_photo st1 = false /\
    classify cfg debug st1 line = Ok st2 /\
    save st2 = (save st ++ [("Unknown", strip line); ("Unknown", strip line)])%list.
Proof.
  intros cfg debug st line Hphoto Hskip Hrule.
  assert (Hc : forall s, skip_photo s && startswith line " " = false ->
             classify cfg debug s line
             = Ok (unknown_rule debug (strip line) (set_skip false s))).
  { intros s Hs. unfold classify. rewrite Hphoto, Hs.
    now apply classify_field_unknown. }
  exists (unknown_rule debug (strip line) (set_skip false st)).
  exists (unknown_rule debug (strip line)
            (set_skip false (unknown_rule debug (strip line) (set_skip false st)))).
  split; [now apply Hc|].
  split; [rewrite unknown_rule_save; now destruct st|].
  split; [rewrite unknown_rule_groups; now destruct st|].
  split; [rewrite unknown_rule_skip; now destruct st|].
  split.
  - apply Hc. rewrite unknown_rule_skip. now destruct st.
  - rewrite unknown_rule_save.
    replace (save (set_skip false (unknown_rule debug (strip line) (set_skip false st))))
      with (save st ++ [("Unknown", strip line)])%list.
    + now rewrite <- app_assoc.
    + destruct debug, st; reflexivity.
Qed.

(** The statement at the line [X-UNHEARD-OF:1] of a fresh entry. *)
Lemma unmatched_line_is_unknown_witness :
  exists st1 st2,
    classify cfg_on true init_state "X-UNHEARD-OF:1" = Ok st1 /\
    save st1 = (save init_state ++ [("Unknown", strip "X-UNHEARD-OF:1")])%list /\
    groups st1 = groups init_state /\
    skip_photo st1 = false /\
    classify cfg_on true st1 "X-UNHEARD-OF:1" = Ok st2 /\
    save st2 = (save init_state
                ++ [("Unknown", strip "X-UNHEARD-OF:1");
                    ("Unknown", strip "X-UNHEARD-OF:1")])%list.
Proof.
  apply (unmatched_line_is_unknown cfg_on true init_state "X-UNHEARD-OF:1");
    reflexivity.
Defined.

(** ** Prefixes and trimming *)

Lemma startswith_inv : forall p s,
  startswith s p = true -> s = p ++ drop (String.length p) s.
Proof.
  unfold startswith.
  induction p as [|a p IH]; intros s H; [reflexivity|].
  destruct s as [|b s]; [discriminate|].
  simpl in H. destruct (ascii_dec a b) as [->|]; [|discriminate].
  simpl. f_equal. now apply IH.
Qed.

Lemma startswith_empty : forall s, startswith s EmptyString = true.
Proof. now intros []. Qed.

Lemma startswith_app : forall p r, startswith (p ++ r) p = true.
Proof.
  unfold startswith.
  induction p as [|a p IH]; intros r; simpl; [now destruct r|].
  destruct (ascii_dec a a); [apply IH | congruence].
Qed.

Lemma rstrip_app : forall p r,
  (forall c, In c (list_ascii_of_string p) -> isspace c = false) ->
  rstrip (p ++ r) = p ++ rstrip r.
Proof.
  induction p as [|a p IH]; intros r H; [reflexivity|].
  simpl. rewrite (H a) by now left.
  simpl. f_equal. apply IH. intros c Hc. apply H. now right.
Qed.

(** Trimming keeps a prefix that has no white space in it. *)
Lemma strip_prefix : forall p s,
  p <> EmptyString ->
  (forall c, In c (list_ascii_of_string p) -> isspace c = false) ->
  startswith s p = true ->
  strip s = p ++ rstrip (drop (String.length p) s).
Proof.
  intros p s Hp Hns H.
  apply startswith_inv in H.
  set (r := drop (String.length p) s) in *. clearbody r. subst s.
  unfold strip.
  destruct p as [|a p]; [congruence|].
  simpl lstrip. rewrite (Hns a) by now left.
  now apply (rstrip_app (String a p)).
Qed.

(** ** The [TEL;] rule *)

Lemma fold_left_app_flat_map : forall (A B : Type) (g : list B -> A -> list B)
    (f : A -> list B),
  (forall acc e, g acc e = (acc ++ f e)%list) ->
  forall l a, fold_left g l a = (a ++ flat_map f l)%list.
Proof.
  intros A B g f Hg. induction l as [|e l IH]; intros a; simpl.
  - now rewrite app_nil_r.
  - now rewrite IH, Hg, <- app_assoc.
Qed.

Lemma candidate_app : forall labels g,
  (if negb (capitalize g =? "Voice") then (labels ++ [capitalize g])%list else labels)
  = (labels ++ candidate g)%list.
Proof.
  intros labels g. unfold candidate.
  destruct (capitalize g =? "Voice"); simpl; [now rewrite app_nil_r | reflexivity].
Qed.

(** The first loop collects the candidates of the single type tokens. *)
Lemma tel_labels_candidates : forall parts, tel_labels parts = single_candidates parts.
Proof.
  intros parts. unfold tel_labels, single_candidates.
  rewrite fold_left_app_flat_map with
    (f := fun entry => match regex.vcard_comm_type_single (strip entry) with
                       | Some g => candidate g
                       | None => []
                       end); [reflexivity|].
  intros acc e. destruct (regex.vcard_comm_type_single (strip e)).
  - apply candidate_app.
  - now rewrite app_nil_r.
Qed.

(** The [if]/[elif] chain and its two inner loops choose by the priority
    list. *)
Lemma tel_label_select_priority : forall labels,
  tel_label_select labels = tel_priority labels.
Proof.
  intros labels. unfold tel_label_select, tel_priority, select_among. simpl.
  repeat match goal with
         | |- context [mem ?x labels] => destruct (mem x labels)
         end; reflexivity.
Qed.

Lemma save_emit : forall p st, save (emit p st) = (save st ++ [p])%list.
Proof. intros p []; reflexivity. Qed.

Lemma set_save_emit : forall sv p st, set_save sv (emit p st) = set_save sv st.
Proof. intros sv p []; reflexivity. Qed.

Lemma emit_set_save : forall p st, emit p st = set_save (save st ++ [p])%list st.
Proof. reflexivity. Qed.

Lemma set_save_same : forall st, set_save (save st ++ [])%list st = st.
Proof. intros []; simpl. unfold set_save; simpl. now rewrite app_nil_r. Qed.

(** The second loop appends the pairs [tel_pairs] lists. *)
Lemma tel_fold_pairs : forall cfg parts labels st,
  snd (fold_left (tel_step cfg) parts (labels, st))
  = set_save (save st ++ tel_pairs cfg labels parts)%list st.
Proof.
  intros cfg. induction parts as [|entry parts IH]; intros labels st.
  - simpl. now rewrite set_save_same.
  - simpl fold_left. simpl tel_pairs.
    remember (tel_step cfg (labels, st) entry) as acc eqn:Hacc.
    unfold tel_step in Hacc.
    destruct (regex.vcard_comm_type_compound (strip entry)) as [[g1 g2]|];
      subst acc; [|apply IH].
    rewrite candidate_app, IH, tel_label_select_priority.
    destruct (preferred cfg && (lower g1 =? "pref")).
    + rewrite !set_save_emit, !save_emit. f_equal.
      now rewrite <- !app_assoc.
    + rewrite !set_save_emit, !save_emit. f_equal.
      now rewrite <- !app_assoc.
Qed.

(** What the rule does to the state, for a trimmed line. *)
Lemma tel_rule_pairs : forall cfg field st,
  startswith field "TEL;" = true ->
  exists parts,
    params_of field = Ok parts /\
    tel_rule cfg field st
    = Ok (set_save (save st ++ tel_pairs cfg (single_candidates parts) parts)%list st).
Proof.
  intros cfg field st H.
  apply startswith_inv in H. simpl in H.
  exists (split ";" (strip (drop 4 field))).
  unfold tel_rule. rewrite H. simpl params_of.
  split; [reflexivity|].
  simpl. now rewrite tel_labels_candidates, tel_fold_pairs.
Qed.

(** A raw line that starts with [TEL;] is handed, trimmed, to the rule, and
    the photo flag is cleared on the way. *)
Lemma classify_tel : forall cfg debug st line,
  startswith line "TEL;" = true ->
  startswith (strip line) "TEL;" = true /\
  classify cfg debug st line = tel_rule cfg (strip line) (set_skip false st).
Proof.
  intros cfg debug st line H.
  assert (Hs : strip line = "TEL;" ++ rstrip (drop 4 line)).
  { apply (strip_prefix "TEL;"); [discriminate | no_space | assumption]. }
  apply startswith_inv in H. simpl String.length in *.
  generalize dependent (drop 4 line). intros r Hs H. subst line.
  rename H into Hs.
  split; [rewrite Hs; apply startswith_app|].
  unfold classify. rewrite Hs. simpl.
  rewrite andb_false_r. unfold classify_field. simpl.
  now rewrite startswith_empty.
Qed.

(** Every compound parameter gives one pair, and one more when it is marked
    [pref] and preferred duplication is on. *)
Lemma tel_pairs_count : forall cfg parts labels,
  List.length (tel_pairs cfg labels parts)
  = compound_count parts + (if preferred cfg then pref_count parts else 0)
  /\ pref_count parts <= compound_count parts.
Proof.
  intros cfg. unfold compound_count, pref_count.
  induction parts as [|entry parts IH]; intros labels; simpl.
  - now destruct (preferred cfg).
  - destruct (regex.vcard_comm_type_compound (strip entry)) as [[x v]|]; [|apply IH].
    destruct (IH (labels ++ candidate x)%list) as [A B].
    destruct (preferred cfg), (lower x =? "pref"); simpl in *;
      rewrite ?length_app; simpl; lia.
Qed.

(** C4, amended: a line that starts with [TEL;] is classified without error;
    it leaves the groups alone and appends one pair for each compound
    parameter [type=X:value], in order.  The candidates are the capitalised
    tokens of the parameters that start with [type=] and capital letters,
    then the capitalised [X] of each compound parameter reached, [Voice]
    left out.  The label is chosen by the priority list [tel_priority]:
    [Pager]; for Fax, [Fax: ] and the last of Home, Work, Other present;
    [Phone: Apple Watch]; [Phone: iPhone]; [Phone: Cell]; [Phone: ] and the
    last of Home, Work, Other, Main present; the empty label when nothing
    applies.  The value is reformatted by [format_phone], and a pair with the
    [(Preferred)] suffix follows when preferred duplication is on and [X] is
    [pref] in any letter case. *)
Theorem tel_line_pairs : forall cfg debug st line,
  startswith line "TEL;" = true ->
  exists parts st',
    params_of (strip line) = Ok parts /\
    classify cfg debug st line = Ok st' /\
    save st' = (save st ++ tel_pairs cfg (single_candidates parts) parts)%list /\
    groups st' = groups st /\
    skip_photo st' = false.
Proof.
  intros cfg debug st line H.
  destruct (classify_tel cfg debug st line H) as [Hs Hc].
  destruct (tel_rule_pairs cfg (strip line) (set_skip false st) Hs) as (parts & Hp & Hr).
  exists parts. eexists. split; [exact Hp|].
  split; [rewrite Hc; exact Hr|].
  now destruct st.
Qed.

(** The statement at a mobile number marked as preferred. *)
Lemma tel_line_pairs_witness :
  exists parts st',
    params_of (strip "TEL;type=CELL;type=pref:555-123-4567") = Ok parts /\
    classify cfg_on false init_state "TEL;type=CELL;type=pref:555-123-4567" = Ok st' /\
    save st' = (save init_state ++ tel_pairs cfg_on (single_candidates parts) parts)%list /\
    groups st' = groups init_state /\
    skip_photo st' = false.
Proof.
  apply (tel_line_pairs cfg_on false init_state "TEL;type=CELL;type=pref:555-123-4567").
  reflexivity.
Defined.

(** ** Photo blocks *)

Lemma for_each_app : forall (A S : Type) (body : S -> A -> outcome S) l1 l2 s,
  for_each body (l1 ++ l2)%list s = (s' <- for_each body l1 s ;; for_each body l2 s').
Proof.
  intros A S body. induction l1 as [|x l1 IH]; intros l2 s; simpl; [reflexivity|].
  destruct (body s x); simpl; [apply IH | reflexivity].
Qed.

(** Under an open photo block, lines that start with a space change nothing. *)
Lemma continuation_lines_skipped : forall cfg debug conts st,
  skip_photo st = true ->
  Forall (fun l => startswith l " " = true) conts ->
  classify_fields cfg debug conts st = Ok st.
Proof.
  intros cfg debug. unfold classify_fields.
  induction conts as [|l conts IH]; intros st Hsk Hall; [reflexivity|].
  inversion Hall as [|? ? Hl Hrest]; subst.
  simpl. unfold classify at 1. rewrite Hsk, Hl. simpl.
  replace (set_skip true st) with st by (rewrite <- Hsk; symmetry; apply set_skip_same).
  destruct (startswith (strip l) "PHOTO;"); simpl; now apply IH.
Qed.

(** A photo line and its continuation lines set the flag and emit nothing. *)
Lemma photo_block_skipped : forall cfg debug photo conts st,
  startswith photo "PHOTO;" = true ->
  Forall (fun l => startswith l " " = true) conts ->
  classify_fields cfg debug (photo :: conts) st = Ok (set_skip true st).
Proof.
  intros cfg debug photo conts st Hp Hall.
  assert (Hs : strip photo = "PHOTO;" ++ rstrip (drop 6 photo)).
  { apply (strip_prefix "PHOTO;"); [discriminate | no_space | assumption]. }
  unfold classify_fields. simpl. unfold classify at 1.
  rewrite Hs, startswith_app. simpl.
  apply continuation_lines_skipped; [now destruct st | assumption].
Qed.

(** C6, amended: a line beginning with [PHOTO;] and the [N] lines starting
    with a space that follow it emit no pair and leave the skip flag set; the
    non-indented [TEL;] line after them clears the flag and is classified as
    it is without the photo block.  It yields one pair for each compound
    parameter [type=X:value], and one more for each of them whose [X] is
    [pref] when preferred duplication is on; so a [TEL;] line with exactly
    one compound parameter yields exactly one pair, or two when preferred
    duplication applies. *)
Theorem photo_block_then_tel : forall cfg debug st photo conts tel,
  startswith photo "PHOTO;" = true ->
  Forall (fun l => startswith l " " = true) conts ->
  startswith tel "TEL;" = true ->
  classify_fields cfg debug (photo :: conts) st = Ok (set_skip true st) /\
  exists parts st' ps,
    params_of (strip tel) = Ok parts /\
    classify_fields cfg debug (photo :: conts ++ [tel]) st = Ok st' /\
    classify cfg debug (set_skip false st) tel = Ok st' /\
    skip_photo st' = false /\
    groups st' = groups st /\
    save st' = (save st ++ ps)%list /\
    List.length ps
    = compound_count parts + (if preferred cfg then pref_count parts else 0) /\
    (compound_count parts = 1 ->
     List.length ps = 1
     \/ (preferred cfg = true /\ pref_count parts = 1 /\ List.length ps = 2)).
Proof.
  intros cfg debug st photo conts tel Hp Hall Ht.
  pose proof (photo_block_skipped cfg debug photo conts st Hp Hall) as Hblock.
  split; [exact Hblock|].
  destruct (classify_tel cfg debug (set_skip true st) tel Ht) as [Hs Hc].
  destruct (classify_tel cfg debug (set_skip false st) tel Ht) as [_ Hc2].
  rewrite set_skip_twice in Hc, Hc2.
  destruct (tel_rule_pairs cfg (strip tel) (set_skip false st) Hs) as (parts & Hparts & Hr).
  rewrite Hr in Hc, Hc2.
  exists parts.
  exists (set_save (save (set_skip false st)
                    ++ tel_pairs cfg (single_candidates parts) parts)%list
            (set_skip false st)).
  exists (tel_pairs cfg (single_candidates parts) parts).
  destruct (tel_pairs_count cfg parts (single_candidates parts)) as (A & B).
  split; [exact Hparts|].
  split.
  { change (photo :: conts ++ [tel])%list with ((photo :: conts) ++ [tel])%list.
    unfold classify_fields in *. rewrite for_each_app, Hblock. simpl.
    now rewrite Hc. }
  split; [exact Hc2|].
  split; [now destruct st|].
  split; [now destruct st|].
  split; [now destruct st|].
  split; [exact A|].
  intros One. rewrite A, One. destruct (preferred cfg); [|now left].
  assert (pref_count parts = 0 \/ pref_count parts = 1) as [E|E] by lia;
    rewrite E; [now left | right; repeat split].
Qed.

(** The statement at a photo block of two continuation lines. *)
Lemma photo_block_then_tel_witness :
  classify_fields cfg_on false
    ["PHOTO;ENCODING=b;TYPE=JPEG:/9j/4AAQSkZJRg"; " ABAQAAAQABAAD"; " /2wBDAAEBAQ"]
    init_state
  = Ok (set_skip true init_state) /\
  exists parts st' ps,
    params_of (strip "TEL;type=CELL;type=pref:555-123-4567") = Ok parts /\
    classify_fields cfg_on false
      ("PHOTO;ENCODING=b;TYPE=JPEG:/9j/4AAQSkZJRg"
       :: [" ABAQAAAQABAAD"; " /2wBDAAEBAQ"]
       ++ ["TEL;type=CELL;type=pref:555-123-4567"])%list
      init_state
    = Ok st' /\
    classify cfg_on false (set_skip false init_state)
      "TEL;type=CELL;type=pref:555-123-4567" = Ok st' /\
    skip_photo st' = false /\
    groups st' = groups init_state /\
    save st' = (save init_state ++ ps)%list /\
    List.length ps
    = compound_count parts + (if preferred cfg_on then pref_count parts else 0) /\
    (compound_count parts = 1 ->
     List.length ps = 1
     \/ (preferred cfg_on = true /\ pref_count parts = 1 /\ List.length ps = 2)).
Proof.
  apply (photo_block_then_tel cfg_on false init_state
           "PHOTO;ENCODING=b;TYPE=JPEG:/9j/4AAQSkZJRg"
           [" ABAQAAAQABAAD"; " /2wBDAAEBAQ"]
           "TEL;type=CELL;type=pref:555-123-4567").
  - reflexivity.
  - repeat constructor.
  - reflexivity.
Defined.

(** ** Column ordering *)

Lemma mem_In : forall x l, mem x l = true <-> In x l.
Proof.
  intros x l. unfold mem. rewrite existsb_exists. split.
  - intros (y & Hy & E). apply String.eqb_eq in E. now subst.
  - intros H. exists x. split; [assumption | apply String.eqb_refl].
Qed.

Lemma mem_false : forall x l, mem x l = false <-> ~ In x l.
Proof.
  intros x l. rewrite <- mem_In. now destruct (mem x l).
Qed.

Lemma selected_In : forall uh p h,
  In h (selected uh p) <-> In h uh /\ startswith h p = true.
Proof. intros uh p h. unfold selected. now rewrite filter_In. Qed.

(** The inner loop of the first pair: every selected field ends up in the
    list, and nothing else is added. *)
Lemma inner1_In : forall l fo h,
  In h (fold_left
          (fun fo sf => if mem sf fo then fo else (fo ++ [sf])%list) l fo)
  <-> In h fo \/ In h l.
Proof.
  induction l as [|x l IH]; intros fo h; simpl; [tauto|].
  rewrite IH. destruct (mem x fo) eqn:E.
  - apply mem_In in E. split; [tauto|]. intros [H|[->|H]]; tauto.
  - rewrite in_app_iff. simpl. tauto.
Qed.

(** The inner loop of the second pair adds the selected fields that are not
    in [field_order2]. *)
Lemma inner2_In : forall l fo h,
  In h (fold_left
          (fun fo sf => if mem sf field_order2 then fo else (fo ++ [sf])%list) l fo)
  <-> In h fo \/ (In h l /\ mem h field_order2 = false).
Proof.
  induction l as [|x l IH]; intros fo h; cbn [fold_left In]; [tauto|].
  rewrite IH. destruct (mem x field_order2) eqn:E.
  - split; [tauto|]. intros [H|[[->|H] F]]; try tauto. congruence.
  - rewrite in_app_iff. cbn [In]. split.
    + intros [[H|[->|[]]]|H]; tauto.
    + intros [H|[[->|H] F]]; tauto.
Qed.

(** Both inner loops only append. *)
Lemma fold_appends : forall (c : string -> list string -> bool) l fo,
  exists t,
    fold_left (fun fo sf => if c sf fo then fo else (fo ++ [sf])%list) l fo
    = (fo ++ t)%list.
Proof.
  intros c. induction l as [|x l IH]; intros fo; simpl.
  - exists []. now rewrite app_nil_r.
  - destruct (c x fo); [apply IH|].
    destruct (IH (fo ++ [x])%list) as [t Ht]. exists (x :: t).
    now rewrite Ht, <- app_assoc.
Qed.

Lemma extend1_appends : forall uh fo, exists t, extend1 uh fo = (fo ++ t)%list.
Proof.
  intros uh fo. unfold extend1, prefixes1. cbn [fold_left].
  destruct (fold_appends (fun sf fo => mem sf fo) (selected uh "Phone") fo) as [t1 H1].
  rewrite H1.
  destruct (fold_appends (fun sf fo => mem sf fo) (selected uh "Pager") (fo ++ t1)%list)
    as [t2 H2].
  rewrite H2.
  destruct (fold_appends (fun sf fo => mem sf fo) (selected uh "Fax")
              ((fo ++ t1) ++ t2)%list) as [t3 H3].
  rewrite H3. exists (t1 ++ t2 ++ t3)%list. now rewrite <- !app_assoc.
Qed.

Lemma extend2_appends : forall uh fo, exists t, extend2 uh fo = (fo ++ t)%list.
Proof.
  intros uh fo. unfold extend2, prefixes2. cbn [fold_left].
  destruct (fold_appends (fun sf _ => mem sf field_order2) (selected uh "Email") fo)
    as [t1 H1].
  rewrite H1.
  destruct (fold_appends (fun sf _ => mem sf field_order2) (selected uh "Address")
              (fo ++ t1)%list) as [t2 H2].
  rewrite H2.
  destruct (fold_appends (fun sf _ => mem sf field_order2) (selected uh "Date")
              ((fo ++ t1) ++ t2)%list) as [t3 H3].
  rewrite H3.
  destruct (fold_appends (fun sf _ => mem sf field_order2) (selected uh "Relationship")
              (((fo ++ t1) ++ t2) ++ t3)%list) as [t4 H4].
  rewrite H4. exists (t1 ++ t2 ++ t3 ++ t4)%list. now rewrite <- !app_assoc.
Qed.

(** [field_order] starts with the company marker. *)
Lemma field_order_head : forall uh,
  exists t, field_order_of uh = "Is Company" :: t.
Proof.
  intros uh. unfold field_order_of.
  destruct (extend1_appends uh field_order_init) as [t1 H1]. rewrite H1.
  destruct (extend2_appends uh ((field_order_init ++ t1) ++ field_order2)%list)
    as [t2 H2].
  rewrite H2. unfold field_order_init. simpl. eexists. reflexivity.
Qed.

Lemma extend1_In : forall uh fo h,
  In h (extend1 uh fo)
  <-> In h fo \/ (In h uh /\ existsb (startswith h) prefixes1 = true).
Proof.
  intros uh fo h. unfold extend1, prefixes1. cbn [fold_left existsb].
  rewrite !inner1_In, !selected_In, !orb_true_iff. intuition congruence.
Qed.

Lemma extend2_In : forall uh fo h,
  In h (extend2 uh fo)
  <-> In h fo
      \/ (In h uh /\ existsb (startswith h) prefixes2 = true
          /\ mem h field_order2 = false).
Proof.
  intros uh fo h. unfold extend2, prefixes2. cbn [fold_left existsb].
  rewrite !inner2_In, !selected_In, !orb_true_iff. intuition congruence.
Qed.

(** For a label of the input, being in [field_order] is being recognised. *)
Lemma field_order_recognized : forall uh h,
  In h uh -> mem h (field_order_of uh) = recognized h.
Proof.
  intros uh h Hin.
  apply eq_true_iff_eq. rewrite mem_In. unfold field_order_of, recognized.
  rewrite extend2_In, in_app_iff, extend1_In, !orb_true_iff, !mem_In.
  destruct (mem h field_order2) eqn:E.
  - apply mem_In in E. tauto.
  - apply mem_false in E. tauto.
Qed.

Lemma filter_all : forall (l : list string), filter (fun _ => true) l = l.
Proof. induction l as [|x l IH]; simpl; [reflexivity | now rewrite IH]. Qed.

Lemma filter_twice : forall (p q : string -> bool) l,
  filter p (filter q l) = filter (fun x => q x && p x) l.
Proof.
  intros p q. induction l as [|x l IH]; simpl; [reflexivity|].
  destruct (q x); simpl; [destruct (p x)|]; now rewrite IH.
Qed.

Lemma mem_cons : forall h f fo, mem h (f :: fo) = (h =? f) || mem h fo.
Proof. reflexivity. Qed.

(** On a list without duplicates [remove] takes the element out. *)
Lemma remove_first_filter : forall f u,
  NoDup u -> remove_first f u = filter (fun h => negb (h =? f)) u.
Proof.
  intros f. induction u as [|y u IH]; intros Hnd; simpl; [reflexivity|].
  inversion Hnd as [|? ? Hy Hu]; subst.
  destruct (y =? f) eqn:E; simpl.
  - apply String.eqb_eq in E. subst y.
    symmetry. rewrite <- (filter_all u) at 2. apply filter_ext_in.
    intros h Hh. destruct (h =? f) eqn:E; [|reflexivity].
    apply String.eqb_eq in E. now subst h.
  - now rewrite IH.
Qed.

Lemma remove_first_perm : forall f u,
  In f u -> Permutation (f :: remove_first f u) u.
Proof.
  intros f. induction u as [|y u IH]; intros Hin; simpl; [contradiction|].
  destruct (y =? f) eqn:E.
  - apply String.eqb_eq in E. now subst y.
  - destruct Hin as [->|Hin]; [now rewrite String.eqb_refl in E|].
    rewrite perm_swap. constructor. now apply IH.
Qed.

(** The last loop: what it appends to [headers], and what it leaves in the
    list it removes from. *)
Lemma pick_fold : forall fo hs u,
  NoDup u ->
  exists P,
    fold_left pick fo (hs, u)
    = ((hs ++ P)%list, filter (fun h => negb (mem h fo)) u) /\
    Forall (fun h => In h fo /\ In h u) P /\
    Permutation (P ++ filter (fun h => negb (mem h fo)) u) u /\
    (forall f fo', fo = f :: fo' -> In f u -> exists P', P = f :: P').
Proof.
  induction fo as [|f fo IH]; intros hs u Hnd.
  - exists []. simpl. rewrite app_nil_r, filter_all.
    repeat split; [constructor | reflexivity | discriminate].
  - cbn [fold_left]. unfold pick at 2. destruct (mem f u) eqn:E.
    + assert (Hin : In f u) by now apply mem_In.
      assert (Hnd' : NoDup (remove_first f u))
        by (rewrite remove_first_filter by assumption; now apply NoDup_filter).
      destruct (IH (hs ++ [f])%list (remove_first f u) Hnd') as (P & Hf & Hall & Hperm & _).
      assert (Hrest : filter (fun h => negb (mem h fo)) (remove_first f u)
                      = filter (fun h => negb (mem h (f :: fo))) u).
      { rewrite remove_first_filter by assumption. rewrite filter_twice.
        apply filter_ext. intros h. rewrite mem_cons. now destruct (h =? f). }
      exists (f :: P). rewrite Hf, Hrest, <- app_assoc. cbn [app].
      split; [reflexivity|]. split; [|split].
      * constructor; [split; [now left | assumption]|].
        eapply Forall_impl; [|exact Hall]. intros h [H1 H2]. split; [now right|].
        rewrite remove_first_filter in H2 by assumption.
        now apply filter_In in H2.
      * rewrite <- Hrest. cbn [app]. rewrite Hperm. now apply remove_first_perm.
      * intros f0 fo' Heq _. injection Heq as -> _. now exists P.
    + assert (Hnot : ~ In f u) by now apply mem_false.
      destruct (IH hs u Hnd) as (P & Hf & Hall & Hperm & _).
      assert (Hrest : filter (fun h => negb (mem h fo)) u
                      = filter (fun h => negb (mem h (f :: fo))) u).
      { apply filter_ext_in. intros h Hh. rewrite mem_cons.
        destruct (h =? f) eqn:E'; [|reflexivity].
        apply String.eqb_eq in E'. now subst h. }
      exists P. rewrite Hf, Hrest.
      split; [reflexivity|]. split; [|split].
      * eapply Forall_impl; [|exact Hall]. intros h [H1 H2]. split; [now right | assumption].
      * now rewrite <- Hrest.
      * intros f0 fo' Heq Hin. injection Heq as -> _. contradiction.
Qed.

(** With reordering on and no duplicate in the input: the labels placed are
    recognised ones, the company marker first; the list returned ends with the
    labels that are not recognised, in the order of the input; and these are
    what the list passed in still holds. *)
Lemma column_ordering_reordered : forall cfg uh,
  reorder_enabled cfg = true ->
  NoDup uh ->
  exists placed,
    custom_column_ordering cfg uh
    = ((placed ++ filter (fun h => negb (recognized h)) uh)%list,
       filter (fun h => negb (recognized h)) uh) /\
    Forall (fun h => recognized h = true) placed /\
    Permutation (placed ++ filter (fun h => negb (recognized h)) uh) uh /\
    (In "Is Company" uh -> exists t, placed = "Is Company" :: t).
Proof.
  intros cfg uh Hon Hnd.
  unfold custom_column_ordering. rewrite Hon. cbn [negb].
  destruct (pick_fold (field_order_of uh) [] uh Hnd) as (P & Hf & Hall & Hperm & Hhd).
  assert (Hrest : filter (fun h => negb (mem h (field_order_of uh))) uh
                  = filter (fun h => negb (recognized h)) uh).
  { apply filter_ext_in. intros h Hh. now rewrite field_order_recognized. }
  rewrite Hf, Hrest in *. cbn [app].
  exists P. split; [reflexivity|]. split; [|split].
  - eapply Forall_impl; [|exact Hall]. intros h [H1 H2].
    rewrite <- (field_order_recognized uh h H2). now apply mem_In.
  - exact Hperm.
  - intros Hc. destruct (field_order_head uh) as [t Ht]. now apply (Hhd _ _ Ht).
Qed.

(** ** The order of [sorted] *)

Lemma str_lt_compare : forall a b, str_lt a b <-> String.compare a b = Lt.
Proof.
  intros a b. unfold str_lt, String.ltb.
  destruct (String.compare a b); split; congruence.
Qed.

Lemma str_lt_trans : forall a b c, str_lt a b -> str_lt b c -> str_lt a c.
Proof.
  intros a b c. rewrite !str_lt_compare.
  change String.compare with String_as_OT.cmp.
  rewrite !String_as_OT.cmp_lt. apply String_as_OT.lt_trans.
Qed.

Lemma str_lt_irrefl : forall a, ~ str_lt a a.
Proof.
  intros a. rewrite str_lt_compare.
  assert (E : String_as_OT.cmp a a = Eq) by now apply String_as_OT.cmp_eq.
  unfold String_as_OT.cmp in E. congruence.
Qed.

Lemma sorted_strongly : forall l, Sorted str_lt l -> StronglySorted str_lt l.
Proof.
  apply Sorted_StronglySorted. intros a b c. apply str_lt_trans.
Qed.

(** A strictly increasing list has no duplicate. *)
Lemma strongly_sorted_nodup : forall l, StronglySorted str_lt l -> NoDup l.
Proof.
  induction 1 as [|a l Hs IH Hall]; constructor; [|assumption].
  intros Hin. rewrite Forall_forall in Hall.
  exact (str_lt_irrefl a (Hall a Hin)).
Qed.

(** Taking labels out of a sorted list leaves it sorted. *)
Lemma strongly_sorted_filter : forall p l,
  StronglySorted str_lt l -> StronglySorted str_lt (filter p l).
Proof.
  intros p. induction 1 as [|a l Hs IH Hall]; simpl; [constructor|].
  destruct (p a); [|assumption].
  constructor; [assumption|].
  rewrite Forall_forall in *. intros x Hx. apply Hall.
  now apply filter_In in Hx.
Qed.

(** C5, amended: the result of the column ordering depends only on the list
    of labels and on the reordering flag.  With the flag off the list passed
    in is returned and left as it is.  With the flag on the call removes from
    the list passed in every label it places: for a list without duplicates,
    the list returned is the recognised labels followed by the others, and the
    list passed in holds, on return, exactly the labels that are not
    recognised, in their order. *)
Theorem column_ordering_effect : forall cfg cfg' uh,
  NoDup uh ->
  reorder_enabled cfg' = reorder_enabled cfg ->
  custom_column_ordering cfg' uh = custom_column_ordering cfg uh /\
  exists placed,
    custom_column_ordering cfg uh
    = (if reorder_enabled cfg
       then ((placed ++ filter (fun h => negb (recognized h)) uh)%list,
             filter (fun h => negb (recognized h)) uh)
       else (uh, uh)) /\
    Forall (fun h => recognized h = true) placed /\
    Permutation (placed ++ filter (fun h => negb (recognized h)) uh) uh.
Proof.
  intros cfg cfg' uh Hnd Hflag. split.
  - unfold custom_column_ordering. now rewrite Hflag.
  - destruct (reorder_enabled cfg) eqn:Hon.
    + destruct (column_ordering_reordered cfg uh Hon Hnd) as (placed & H1 & H2 & H3 & _).
      now exists placed.
    + pose (on := {| preferred := preferred cfg; address_enabled := address_enabled cfg;
                     phone_enabled := phone_enabled cfg; reorder_enabled := true |}).
      destruct (column_ordering_reordered on uh eq_refl Hnd) as (placed & _ & H2 & H3 & _).
      exists placed. split; [|now split].
      unfold custom_column_ordering. now rewrite Hon.
Qed.

(** The statement at a list of three labels, reordering on. *)
Lemma column_ordering_effect_witness :
  custom_column_ordering cfg_on ["Is Company"; "Note"; "Phone: Cell"]
  = custom_column_ordering cfg_on ["Is Company"; "Note"; "Phone: Cell"] /\
  exists placed,
    custom_column_ordering cfg_on ["Is Company"; "Note"; "Phone: Cell"]
    = (if reorder_enabled cfg_on
       then ((placed ++ filter (fun h => negb (recognized h))
                          ["Is Company"; "Note"; "Phone: Cell"])%list,
             filter (fun h => negb (recognized h)) ["Is Company"; "Note"; "Phone: Cell"])
       else (["Is Company"; "Note"; "Phone: Cell"], ["Is Company"; "Note"; "Phone: Cell"])) /\
    Forall (fun h => recognized h = true) placed /\
    Permutation
      (placed ++ filter (fun h => negb (recognized h)) ["Is Company"; "Note"; "Phone: Cell"])
      ["Is Company"; "Note"; "Phone: Cell"].
Proof.
  apply (column_ordering_effect cfg_on cfg_on ["Is Company"; "Note"; "Phone: Cell"]).
  - repeat (constructor; [simpl; intuition discriminate|]). constructor.
  - reflexivity.
Defined.

(** C9: for a lexicographically sorted list of unique labels and reordering
    on, the list returned has [Is Company] first whenever it is in the input;
    it is a run of recognised labels followed by the labels that are not
    recognised, and these are in lexicographic order among themselves.  No
    label is lost or added. *)
Theorem column_order_shape : forall cfg uh,
  reorder_enabled cfg = true ->
  Sorted str_lt uh ->
  (In "Is Company" uh ->
   hd_error (fst (custom_column_ordering cfg uh)) = Some "Is Company") /\
  exists known rest,
    fst (custom_column_ordering cfg uh) = (known ++ rest)%list /\
    Forall (fun h => recognized h = true) known /\
    Forall (fun h => recognized h = false) rest /\
    Sorted str_lt rest /\
    Permutation (fst (custom_column_ordering cfg uh)) uh.
Proof.
  intros cfg uh Hon Hsorted.
  apply sorted_strongly in Hsorted.
  destruct (column_ordering_reordered cfg uh Hon (strongly_sorted_nodup uh Hsorted))
    as (placed & Heq & Hrec & Hperm & Hhd).
  rewrite Heq. cbn [fst]. split.
  - intros Hc. destruct (Hhd Hc) as [t ->]. reflexivity.
  - exists placed, (filter (fun h => negb (recognized h)) uh).
    split; [reflexivity|]. split; [exact Hrec|]. split; [|split].
    + apply Forall_forall. intros h Hh. apply filter_In in Hh.
      destruct Hh as [_ Hh]. now destruct (recognized h).
    + apply StronglySorted_Sorted. now apply strongly_sorted_filter.
    + exact Hperm.
Qed.

(** The statement at a sorted list of five labels. *)
Lemma column_order_shape_witness :
  (In "Is Company" ["Apple"; "Email: Zed"; "Is Company"; "Note"; "Phone: Cell"] ->
   hd_error (fst (custom_column_ordering cfg_on
                    ["Apple"; "Email: Zed"; "Is Company"; "Note"; "Phone: Cell"]))
   = Some "Is Company") /\
  exists known rest,
    fst (custom_column_ordering cfg_on
           ["Apple"; "Email: Zed"; "Is Company"; "Note"; "Phone: Cell"])
    = (known ++ rest)%list /\
    Forall (fun h => recognized h = true) known /\
    Forall (fun h => recognized h = false) rest /\
    Sorted str_lt rest /\
    Permutation
      (fst (custom_column_ordering cfg_on
              ["Apple"; "Email: Zed"; "Is Company"; "Note"; "Phone: Cell"]))
      ["Apple"; "Email: Zed"; "Is Company"; "Note"; "Phone: Cell"].
Proof.
  apply (column_order_shape cfg_on
           ["Apple"; "Email: Zed"; "Is Company"; "Note"; "Phone: Cell"]).
  - reflexivity.
  - repeat constructor.
Defined.

(** ** The failures in general *)

(** An [N:] line with fewer than five components raises, whatever the state. *)
Lemma n_rule_short : forall field v st,
  value_of field = Ok v ->
  List.length (split ";" v) < 5 ->
  n_rule field st = Raise IndexError.
Proof.
  intros field v st Hv Hlen. unfold n_rule. rewrite Hv. cbn [bind].
  destruct (split ";" v) as [|a [|b [|c [|d [|e l]]]]]; simpl in Hlen; try lia;
    reflexivity.
Qed.

(** An address line whose parameter block does not match the pattern raises. *)
Lemma address_emit_no_match : forall cfg line v st,
  index (split1 ";" line) 1 = Ok v ->
  regex.vcard_comm_type_pref (strip v) = None ->
  address_emit cfg line st = Raise AttributeError.
Proof.
  intros cfg line v st Hv Hm. unfold address_emit. rewrite Hv. cbn [bind].
  now rewrite Hm.
Qed.

(** A group with one collected value raises, whatever the value. *)
Lemma resolve_group_single : forall cfg debug st group v,
  resolve_group cfg debug st (group, [v]) = Raise IndexError.
Proof. reflexivity. Qed.

(** A text of one character does not end with [pref]. *)
Lemma one_char_not_pref : forall c, endswith (String c EmptyString) "pref" = false.
Proof.
  intros c. simpl. destruct (Ascii.eqb c "p"); reflexivity.
Qed.

(** The preferred test of the [TEL], [ADR], [URL] and [IMPP] branches of the
    resolver never adds a pair. *)
Lemma pref_of_value_no_pair : forall cfg label value data st st',
  pref_of_value cfg label value data st = Ok st' -> st' = st.
Proof.
  intros cfg label value data st st'. unfold pref_of_value.
  destruct (preferred cfg); [|congruence].
  destruct data as [|c data]; cbn [char0 bind]; [discriminate|].
  rewrite one_char_not_pref. congruence.
Qed.

(** Without one of the nine known candidates the label is empty. *)
Lemma tel_priority_none : forall labels,
  forallb (fun l => negb (mem l labels))
    ["Pager"; "Fax"; "Applewatch"; "Iphone"; "Cell"; "Home"; "Work"; "Other"; "Main"]
  = true ->
  tel_priority labels = EmptyString.
Proof.
  intros labels H. cbn [forallb] in H.
  repeat match type of H with
         | (_ && _) = true => apply andb_prop in H; destruct H as [? H]
         end.
  unfold tel_priority.
  repeat match goal with
         | E : negb (mem ?x labels) = true |- _ =>
             apply negb_true_iff in E; rewrite E; clear E
         end.
  reflexivity.
Qed.

(** * Further properties of the parser *)

(** ** Groups that resolve to nothing *)

(** X1: a group whose first two values start neither with [X-ABLabel:] nor
    with [X-ABADR:] is reported twice: the first fallback of the resolver has
    no [continue], so the empty label and data fall through to the last one.
    Both pairs are the same, and the debug list gets the text once. *)
Theorem unresolved_group_reported_twice : forall cfg debug st group a b rest,
  startswith a "X-ABLabel:" = false ->
  startswith b "X-ABLabel:" = false ->
  startswith a "X-ABADR:" = false ->
  startswith b "X-ABADR:" = false ->
  exists st',
    resolve_group cfg debug st (group, a :: b :: rest) = Ok st' /\
    save st' = (save st
                ++ [("Unknown", group_text group (a :: b :: rest));
                    ("Unknown", group_text group (a :: b :: rest))])%list /\
    unknown st' = (if debug
                   then (unknown st ++ [group_text group (a :: b :: rest)])%list
                   else unknown st).
Proof.
  intros cfg debug st group a b rest Ha Hb Ha' Hb'.
  unfold resolve_group. cbn [index nth_error bind].
  rewrite Ha, Hb, Ha', Hb'. cbn [orb].
  unfold dispatch. cbn -[group_text].
  eexists. split; [reflexivity|].
  destruct debug, st; cbn -[group_text]; rewrite <- ?app_assoc; split; reflexivity.
Qed.

(** The statement at a group of two lines of an unknown kind. *)
Lemma unresolved_group_reported_twice_witness :
  exists st',
    resolve_group cfg_on true init_state (7%N, ["X-FOO:1"; "X-BAR:2"]) = Ok st' /\
    save st' = (save init_state
                ++ [("Unknown", group_text 7 ["X-FOO:1"; "X-BAR:2"]);
                    ("Unknown", group_text 7 ["X-FOO:1"; "X-BAR:2"])])%list /\
    unknown st' = (if true
                   then (unknown init_state ++ [group_text 7 ["X-FOO:1"; "X-BAR:2"]])%list
                   else unknown init_state).
Proof.
  apply (unresolved_group_reported_twice cfg_on true init_state 7%N
           "X-FOO:1" "X-BAR:2" []); reflexivity.
Defined.

(** ** The label wrapper *)

Lemma span_stop : forall p a b,
  forallb p (list_ascii_of_string a) = true ->
  match b with EmptyString => True | String c _ => p c = false end ->
  span p (a ++ b) = (a, b).
Proof.
  intros p. induction a as [|c a IH]; intros b Ha Hb.
  - destruct b as [|c b]; [reflexivity|]. simpl. now rewrite Hb.
  - simpl in Ha. apply andb_prop in Ha. destruct Ha as [Hc Ha].
    simpl. rewrite Hc, (IH b Ha Hb). reflexivity.
Qed.

Lemma span_spec : forall p s a b,
  span p s = (a, b) ->
  s = a ++ b /\ forallb p (list_ascii_of_string a) = true /\
  match b with EmptyString => True | String c _ => p c = false end.
Proof.
  intros p. induction s as [|c s IH]; intros a b H; simpl in H.
  - injection H as <- <-. repeat split.
  - destruct (p c) eqn:Hc.
    + destruct (span p s) as [a' b'] eqn:E. injection H as <- <-.
      destruct (IH a' b' eq_refl) as (-> & Ha & Hb).
      simpl. rewrite Hc, Ha. repeat split. exact Hb.
    + injection H as <- <-. simpl. repeat split. exact Hc.
Qed.

Lemma has_char_forallb : forall q s,
  has_char q s = false <->
  forallb (fun c => negb (c =? q)%char) (list_ascii_of_string s) = true.
Proof.
  intros q. unfold has_char. induction s as [|c s IH]; simpl; [tauto|].
  rewrite orb_false_iff, andb_true_iff, IH, (Ascii.eqb_sym q c).
  now destruct (c =? q)%char.
Qed.

Lemma at_end_inv : forall s,
  regex.at_end s = true -> s = EmptyString \/ s = nl.
Proof.
  intros s H. unfold regex.at_end in H. apply orb_prop in H.
  destruct H as [H|H]; apply String.eqb_eq in H; auto.
Qed.

Lemma append_assoc : forall a b c : string, (a ++ b) ++ c = a ++ (b ++ c).
Proof. induction a as [|x a IH]; intros b c; simpl; [reflexivity | now rewrite IH]. Qed.

Lemma append_nil_r : forall a : string, a ++ EmptyString = a.
Proof. induction a as [|x a IH]; simpl; [reflexivity | now rewrite IH]. Qed.

(** The pattern on a wrapped text followed by what [$] allows. *)
Lemma extra_label_of_wrapped : forall inner tail,
  inner <> EmptyString ->
  has_char ">" inner = false ->
  regex.at_end tail = true ->
  regex.vcard_extra_label ("_$!<" ++ inner ++ ">!$_" ++ tail) = Some inner.
Proof.
  intros inner tail Hne Hgt Ht. apply has_char_forallb in Hgt.
  unfold regex.vcard_extra_label, regex.after.
  rewrite startswith_app. cbn [String.length drop append].
  erewrite span_stop; [|exact Hgt|reflexivity].
  cbn -[regex.at_end].
  change (String.prefix EmptyString tail) with (startswith tail EmptyString).
  rewrite startswith_empty, Ht. now destruct inner.
Qed.

(** X2: the extra-label pattern accepts exactly the wrapped texts, with or
    without a final line feed: a text matches with inner text [inner] if and
    only if [inner] is not empty, has no [>] in it, and the text is
    [_$!<inner>!$_]. *)
Theorem extra_label_matches_wrapped : forall s inner,
  regex.vcard_extra_label s = Some inner <->
  inner <> EmptyString /\ has_char ">" inner = false /\
  (s = wrap_label inner \/ s = wrap_label inner ++ nl).
Proof.
  intros s inner. unfold wrap_label. split.
  - unfold regex.vcard_extra_label, regex.after.
    destruct (startswith s "_$!<") eqn:Hs; [|discriminate].
    apply startswith_inv in Hs. cbn [String.length] in *.
    destruct (span (fun c => negb (c =? ">")%char) (drop 4 s)) as [a b] eqn:Hsp.
    destruct (startswith b ">!$_") eqn:Hb; [|discriminate].
    apply startswith_inv in Hb. cbn [String.length] in *.
    destruct (nonempty a) eqn:Ha; [|discriminate]. cbn [andb].
    destruct (regex.at_end (drop 4 b)) eqn:He; [|discriminate].
    intros E. injection E as <-.
    apply span_spec in Hsp. destruct Hsp as (Hd & Hall & _).
    split; [now destruct a|].
    split; [now apply has_char_forallb|].
    rewrite Hs, Hd, Hb.
    destruct (at_end_inv _ He) as [->| ->]; [left | right].
    + now rewrite append_nil_r.
    + now rewrite !append_assoc.
  - intros (Hne & Hgt & [-> | ->]).
    + rewrite <- (append_nil_r ">!$_").
      now apply extra_label_of_wrapped.
    + rewrite !append_assoc. now apply extra_label_of_wrapped.
Qed.

(** ** Name lines *)

(** X3: an [N:] line whose value has five components or more is classified
    without error: it appends, in the order Last, First, Middle, Prefix,
    Suffix, one pair for each of the first five components that is not empty,
    and ignores any further component. *)
Theorem n_line_pairs : forall cfg debug st line p0 p1 p2 p3 p4 more,
  startswith line "N:" = true ->
  split ";" (strip (drop 2 (strip line))) = p0 :: p1 :: p2 :: p3 :: p4 :: more ->
  classify cfg debug st line
  = Ok (set_save (save st ++ name_pairs p0 p1 p2 p3 p4)%list (set_skip false st)).
Proof.
  intros cfg debug st line p0 p1 p2 p3 p4 more H Hparts.
  assert (Hs : strip line = "N:" ++ rstrip (drop 2 line)).
  { apply (strip_prefix "N:"); [discriminate | no_space | assumption]. }
  apply startswith_inv in H. cbn [String.length] in H, Hs.
  remember (drop 2 line) as r eqn:Er. clear Er. subst line.
  rewrite Hs in Hparts. cbn [drop append] in Hparts.
  unfold classify. rewrite Hs. cbn -[classify_field].
  rewrite andb_false_r.
  unfold classify_field. cbn -[n_rule].
  change (String.prefix EmptyString (rstrip r)) with (startswith (rstrip r) EmptyString).
  rewrite startswith_empty.
  unfold n_rule, value_of. cbn -[strip split emit_part].
  rewrite Hparts. unfold emit_part, name_pairs. cbn.
  destruct (nonempty p0), (nonempty p1), (nonempty p2), (nonempty p3), (nonempty p4);
    destruct st; cbn; unfold emit, set_save, set_skip; cbn;
    rewrite <- ?app_assoc, ?app_nil_r; reflexivity.
Qed.

(** The statement at the name line of the specification's example. *)
Lemma n_line_pairs_witness :
  classify cfg_on false init_state "N:Doe;John;;;"
  = Ok (set_save (save init_state ++ name_pairs "Doe" "John" "" "" "")%list
          (set_skip false init_state)).
Proof.
  apply (n_line_pairs cfg_on false init_state "N:Doe;John;;;" "Doe" "John" "" "" "" []);
    reflexivity.
Defined.

(** ** The entry splitter *)

Lemma split_str_absent : forall sep s,
  contains s sep = false -> split_str sep s = [s].
Proof.
  intros sep. unfold split_str. induction s as [|c s IH]; intros H; [reflexivity|].
  cbn [contains] in H. apply orb_false_elim in H. destruct H as [Hp Hc].
  cbn [split_str_from]. rewrite Hp, (IH Hc). reflexivity.
Qed.

(** X4: a file without the marker [END:VCARD] is one entry: the whole text,
    trimmed, with the marker put back on a line of its own; or no entry at
    all when the text is white space only. *)
Theorem unmarked_file_is_one_entry : forall content,
  contains content "END:VCARD" = false ->
  entries_of content
  = if nonempty (strip content) then [strip content ++ nl ++ "END:VCARD"] else [].
Proof.
  intros content H. unfold entries_of. rewrite (split_str_absent _ _ H).
  cbn [filter]. now destruct (nonempty (strip content)).
Qed.

(** The statement at a card cut off before its end marker. *)
Lemma unmarked_file_is_one_entry_witness :
  entries_of ("BEGIN:VCARD" ++ nl ++ "FN:Jo" ++ nl)
  = if nonempty (strip ("BEGIN:VCARD" ++ nl ++ "FN:Jo" ++ nl))
    then [strip ("BEGIN:VCARD" ++ nl ++ "FN:Jo" ++ nl) ++ nl ++ "END:VCARD"] else [].
Proof.
  apply (unmarked_file_is_one_entry ("BEGIN:VCARD" ++ nl ++ "FN:Jo" ++ nl)).
  reflexivity.
Defined.

Lemma blank_lstrip : forall s, blank s = true -> lstrip s = EmptyString.
Proof.
  unfold blank. induction s as [|c s IH]; intros H; [reflexivity|].
  simpl in H. apply andb_prop in H. destruct H as [Hc Hs].
  simpl. rewrite Hc. now apply IH.
Qed.

Lemma blank_no_marker : forall s, blank s = true -> contains s "END:VCARD" = false.
Proof.
  unfold blank. induction s as [|c s IH]; intros H; [reflexivity|].
  simpl in H. apply andb_prop in H. destruct H as [Hc Hs].
  cbn [contains]. rewrite (IH Hs), orb_false_r.
  cbn [String.prefix]. destruct (ascii_dec "E" c) as [<-|]; [discriminate | reflexivity].
Qed.

(** X5: a file that is empty or holds white space only gives the empty record
    list, without error. *)
Theorem blank_file_has_no_record : forall cfg debug content,
  blank content = true ->
  parse_vcard cfg debug content = Ok [].
Proof.
  intros cfg debug content H. unfold parse_vcard, entries_of.
  rewrite (split_str_absent _ _ (blank_no_marker content H)).
  cbn [filter]. unfold strip. rewrite (blank_lstrip content H). reflexivity.
Qed.

(** The statement at a file of blanks and a line feed. *)
Lemma blank_file_has_no_record_witness :
  parse_vcard cfg_on true ("  " ++ nl) = Ok [].
Proof.
  apply (blank_file_has_no_record cfg_on true ("  " ++ nl)). reflexivity.
Defined.

(** ** Phone numbers *)

Lemma digits_spec : forall n s g r,
  regex.digits n s = Some (g, r) ->
  s = g ++ r /\ String.length g = n /\ all_digits g = true.
Proof.
  unfold all_digits.
  induction n as [|n IH]; intros s g r H; simpl in H.
  - injection H as <- <-. repeat split.
  - destruct s as [|c s]; [discriminate|].
    destruct (isdigit c) eqn:Hc; [|discriminate].
    destruct (regex.digits n s) as [[a r']|] eqn:E; [|discriminate].
    injection H as <- <-. destruct (IH s a r' E) as (-> & Hl & Hd).
    simpl. rewrite Hl, Hc, Hd. repeat split.
Qed.

Lemma digits_app : forall n g r,
  String.length g = n -> all_digits g = true ->
  regex.digits n (g ++ r) = Some (g, r).
Proof.
  unfold all_digits.
  induction n as [|n IH]; intros g r Hl Hd.
  - destruct g; [reflexivity | discriminate].
  - destruct g as [|c g]; [discriminate|].
    simpl in Hl, Hd. apply andb_prop in Hd. destruct Hd as [Hc Hd].
    simpl. rewrite Hc, (IH g r) by (auto; lia). reflexivity.
Qed.

Lemma digit_is_plain : forall c,
  isdigit c = true ->
  Ascii.eqb "(" c = false /\ Ascii.eqb "+" c = false /\ regex.is_sep c = false.
Proof.
  intros [[] [] [] [] [] [] [] []]; intros H; try discriminate H; repeat split.
Qed.

Lemma phone_body_spec : forall s g1 g2 g3,
  regex.phone_body s = Some (g1, g2, g3) ->
  (String.length g1 = 3 /\ all_digits g1 = true) /\
  (String.length g2 = 3 /\ all_digits g2 = true) /\
  (String.length g3 = 4 /\ all_digits g3 = true).
Proof.
  intros s g1 g2 g3. unfold regex.phone_body.
  destruct (regex.digits 3 _) as [[a1 s1]|] eqn:E1; [|discriminate].
  destruct (regex.digits 3 (regex.opt _ (regex.opt _ s1))) as [[a2 s2]|] eqn:E2;
    [|discriminate].
  destruct (regex.digits 4 _) as [[a3 s3]|] eqn:E3; [|discriminate].
  destruct (regex.at_end s3); [|discriminate].
  intros H. injection H as <- <- <-.
  apply digits_spec in E1, E2, E3. tauto.
Qed.

Lemma phone_format_spec : forall s g1 g2 g3,
  regex.phone_format s = Some (g1, g2, g3) ->
  (String.length g1 = 3 /\ all_digits g1 = true) /\
  (String.length g2 = 3 /\ all_digits g2 = true) /\
  (String.length g3 = 4 /\ all_digits g3 = true).
Proof.
  intros s g1 g2 g3. unfold regex.phone_format.
  destruct (regex.phone_prefix s) as [r|]; [|apply phone_body_spec].
  destruct (regex.phone_body r) as [g|] eqn:E; [|apply phone_body_spec].
  intros H. injection H as ->. now apply phone_body_spec with r.
Qed.

(** The reformatted number matches the pattern again, with the same groups. *)
Lemma phone_format_canonical : forall g1 g2 g3,
  String.length g1 = 3 -> all_digits g1 = true ->
  String.length g2 = 3 -> all_digits g2 = true ->
  String.length g3 = 4 -> all_digits g3 = true ->
  regex.phone_format (g1 ++ "-" ++ g2 ++ "-" ++ g3) = Some (g1, g2, g3).
Proof.
  intros g1 g2 g3 L1 D1 L2 D2 L3 D3.
  assert (Hbody : regex.phone_body (g1 ++ "-" ++ g2 ++ "-" ++ g3) = Some (g1, g2, g3)).
  { unfold regex.phone_body.
    assert (Ho : regex.opt (Ascii.eqb "(") (g1 ++ "-" ++ g2 ++ "-" ++ g3)
                 = g1 ++ "-" ++ g2 ++ "-" ++ g3).
    { destruct g1 as [|c g1]; [discriminate|].
      unfold all_digits in D1. simpl in D1. apply andb_prop in D1.
      destruct D1 as [Hc _]. apply digit_is_plain in Hc.
      cbn [append regex.opt]. now destruct Hc as (-> & _). }
    rewrite Ho, (digits_app 3 g1) by assumption.
    change (regex.opt regex.is_sep (regex.opt (Ascii.eqb ")") ("-" ++ g2 ++ "-" ++ g3)))
      with (g2 ++ "-" ++ g3).
    rewrite (digits_app 3 g2) by assumption.
    change (regex.opt regex.is_sep ("-" ++ g3)) with g3.
    rewrite <- (append_nil_r g3) at 1.
    rewrite (digits_app 4 g3) by assumption. reflexivity. }
  unfold regex.phone_format, regex.phone_prefix.
  destruct g1 as [|c1 [|c2 [|c3 [|c4 g1]]]]; try discriminate.
  unfold all_digits in D1. simpl in D1.
  apply andb_prop in D1. destruct D1 as [H1 D1].
  apply andb_prop in D1. destruct D1 as [H2 D1].
  apply andb_prop in D1. destruct D1 as [H3 _].
  destruct (digit_is_plain c1 H1) as (P1 & Q1 & S1).
  destruct (digit_is_plain c2 H2) as (P2 & Q2 & S2).
  cbn [append regex.opt]. rewrite Q1.
  destruct (c1 =? "1")%char; [|exact Hbody].
  cbn [regex.opt]. rewrite S2.
  assert (Hfail : regex.phone_body
                    (String c2 (String c3 (String "-" (g2 ++ String "-" g3)))) = None).
  { unfold regex.phone_body. cbn [regex.opt]. rewrite P2.
    cbn [regex.digits]. rewrite H2, H3. reflexivity. }
  rewrite Hfail. exact Hbody.
Qed.

(** X6: reformatting a phone number twice is reformatting it once. *)
Theorem format_phone_idempotent : forall cfg phone,
  format_phone cfg (format_phone cfg phone) = format_phone cfg phone.
Proof.
  intros cfg phone. unfold format_phone.
  destruct (phone_enabled cfg); [|reflexivity].
  destruct (regex.phone_format phone) as [[[g1 g2] g3]|] eqn:E.
  - destruct (phone_format_spec _ _ _ _ E) as ((L1 & D1) & (L2 & D2) & (L3 & D3)).
    now rewrite phone_format_canonical.
  - now rewrite E.
Qed.

(** X7: a phone number is either left as it is or rewritten as three digits,
    a hyphen, three digits, a hyphen and four digits; with the option off it
    is always left as it is. *)
Theorem format_phone_shape : forall cfg phone,
  (phone_enabled cfg = false /\ format_phone cfg phone = phone) \/
  (phone_enabled cfg = true /\ regex.phone_format phone = None
   /\ format_phone cfg phone = phone) \/
  exists g1 g2 g3,
    phone_enabled cfg = true /\
    format_phone cfg phone = g1 ++ "-" ++ g2 ++ "-" ++ g3 /\
    (String.length g1 = 3 /\ all_digits g1 = true) /\
    (String.length g2 = 3 /\ all_digits g2 = true) /\
    (String.length g3 = 4 /\ all_digits g3 = true).
Proof.
  intros cfg phone. unfold format_phone.
  destruct (phone_enabled cfg); [|now left].
  destruct (regex.phone_format phone) as [[[g1 g2] g3]|] eqn:E.
  - right. right. exists g1, g2, g3.
    split; [reflexivity|]. split; [reflexivity|]. now apply phone_format_spec with phone.
  - right. left. repeat split.
Qed.

(** ** Addresses *)

Lemma has_char_app : forall q a b,
  has_char q (a ++ b) = has_char q a || has_char q b.
Proof.
  intros q. unfold has_char. induction a as [|c a IH]; intros b; simpl; [reflexivity|].
  now rewrite IH, orb_assoc.
Qed.

Lemma has_char_cons : forall q c s,
  has_char q (String c s) = (q =? c)%char || has_char q s.
Proof. reflexivity. Qed.

Lemma split_pieces_plain : forall sep s,
  Forall (fun x => has_char sep x = false) (split sep s).
Proof.
  intros sep. induction s as [|c s IH]; simpl; [now constructor|].
  destruct (c =? sep)%char eqn:E; [now constructor|].
  destruct (split sep s) as [|x xs]; simpl.
  - constructor; [|constructor]. rewrite has_char_cons, Ascii.eqb_sym, E. reflexivity.
  - inversion IH as [|? ? Hx Hxs]; subst. constructor; [|assumption].
    rewrite has_char_cons, Ascii.eqb_sym, E. exact Hx.
Qed.

Lemma split_plain : forall sep s, has_char sep s = false -> split sep s = [s].
Proof.
  intros sep. induction s as [|c s IH]; intros H; [reflexivity|].
  rewrite has_char_cons in H. apply orb_false_elim in H. destruct H as [Hc Hs].
  simpl. rewrite Ascii.eqb_sym, Hc, (IH Hs). reflexivity.
Qed.

Lemma lstrip_plain : forall q s, has_char q s = false -> has_char q (lstrip s) = false.
Proof.
  intros q. induction s as [|c s IH]; intros H; [reflexivity|].
  simpl. destruct (isspace c); [|exact H].
  rewrite has_char_cons in H. apply orb_false_elim in H. now apply IH.
Qed.

Lemma rstrip_plain : forall q s, has_char q s = false -> has_char q (rstrip s) = false.
Proof.
  intros q. induction s as [|c s IH]; intros H; [reflexivity|].
  rewrite has_char_cons in H. apply orb_false_elim in H. destruct H as [Hc Hs].
  simpl. destruct (isspace c && negb (nonempty (rstrip s))); [reflexivity|].
  rewrite has_char_cons, Hc. now apply IH.
Qed.

Lemma strip_plain : forall q s, has_char q s = false -> has_char q (strip s) = false.
Proof. intros q s H. unfold strip. now apply rstrip_plain, lstrip_plain. Qed.

Lemma join_plain : forall q sep l,
  has_char q sep = false ->
  Forall (fun x => has_char q x = false) l ->
  has_char q (join sep l) = false.
Proof.
  intros q sep l Hsep. unfold join. induction 1 as [|x l Hx Hl IH]; [reflexivity|].
  destruct l as [|y l]; [exact Hx|].
  cbn [String.concat]. rewrite !has_char_app, Hx, Hsep. exact IH.
Qed.

(** The components kept by [format_address]. *)
Lemma address_components_plain : forall address,
  Forall (fun x => has_char ";" x = false)
    (map strip (filter (fun comp => nonempty (strip comp)) (split ";" address))).
Proof.
  intros address. apply Forall_map.
  pose proof (split_pieces_plain ";" address) as H.
  induction H as [|x l Hx Hl IH]; simpl; [constructor|].
  destruct (nonempty (strip x)); [|exact IH].
  constructor; [now apply strip_plain | exact IH].
Qed.

(** X8: with address reformatting on, the reformatted address has no
    semicolon left in it. *)
Theorem format_address_no_semicolon : forall cfg address,
  address_enabled cfg = true ->
  has_char ";" (format_address cfg address) = false.
Proof.
  intros cfg address H. unfold format_address. rewrite H.
  apply join_plain; [reflexivity | apply address_components_plain].
Qed.

(** The statement at an Apple address value. *)
Lemma format_address_no_semicolon_witness :
  has_char ";" (format_address cfg_on ";;1 Main St;Town;CA;90000;USA") = false.
Proof.
  apply (format_address_no_semicolon cfg_on ";;1 Main St;Town;CA;90000;USA").
  reflexivity.
Defined.

Lemma rstrip_idem : forall s, rstrip (rstrip s) = rstrip s.
Proof.
  induction s as [|c s IH]; [reflexivity|].
  simpl. destruct (isspace c && negb (nonempty (rstrip s))) eqn:E; [reflexivity|].
  simpl. now rewrite IH, E.
Qed.

Lemma lstrip_head : forall s,
  match lstrip s with
  | EmptyString => True
  | String c _ => isspace c = false
  end.
Proof.
  induction s as [|c s IH]; simpl; [exact I|].
  destruct (isspace c) eqn:E; [exact IH | exact E].
Qed.

Lemma strip_trimmed : forall s, nonempty (strip s) = true -> trimmed (strip s).
Proof.
  intros s H. unfold strip in *. pose proof (lstrip_head s) as Hh.
  destruct (lstrip s) as [|c y]; [discriminate|].
  simpl in *. rewrite Hh in *. simpl in *. split; [exact Hh|].
  simpl. now rewrite Hh, rstrip_idem.
Qed.

Lemma trimmed_strip : forall s, trimmed s -> strip s = s.
Proof.
  intros [|c s] [Hc Hr]; [contradiction|].
  unfold strip. simpl lstrip. now rewrite Hc.
Qed.

Lemma trimmed_nonempty : forall s, trimmed s -> nonempty s = true.
Proof. intros [|c s] [Hc _]; [contradiction | reflexivity]. Qed.

Lemma nonempty_app_r : forall a b, nonempty b = true -> nonempty (a ++ b) = true.
Proof. intros [|c a] b H; [exact H | reflexivity]. Qed.

Lemma rstrip_app_keep : forall a b,
  nonempty b = true -> rstrip b = b -> rstrip (a ++ b) = a ++ b.
Proof.
  induction a as [|c a IH]; intros b Hb Hr; [exact Hr|].
  simpl. rewrite (IH b Hb Hr), (nonempty_app_r a b Hb), andb_false_r. reflexivity.
Qed.

Lemma join_trimmed : forall l,
  l <> [] -> Forall trimmed l -> trimmed (join ", " l).
Proof.
  unfold join. induction l as [|x l IH]; intros Hne Hall; [congruence|].
  inversion Hall as [|? ? Hx Hl]; subst.
  destruct l as [|y l]; [exact Hx|].
  assert (Hrest : trimmed (String.concat ", " (y :: l))) by (apply IH; [discriminate | exact Hl]).
  cbn [String.concat] in *. split.
  - destruct x as [|c x]; [now destruct Hx | exact (proj1 Hx)].
  - rewrite <- append_assoc. apply rstrip_app_keep.
    + now apply trimmed_nonempty.
    + exact (proj2 Hrest).
Qed.

Lemma address_components_trimmed : forall address,
  Forall trimmed
    (map strip (filter (fun comp => nonempty (strip comp)) (split ";" address))).
Proof.
  intros address. apply Forall_map.
  induction (split ";" address) as [|x l IH]; simpl; [constructor|].
  destruct (nonempty (strip x)) eqn:E; [|exact IH].
  constructor; [now apply strip_trimmed | exact IH].
Qed.

(** X9: reformatting an address twice is reformatting it once. *)
Theorem format_address_idempotent : forall cfg address,
  format_address cfg (format_address cfg address) = format_address cfg address.
Proof.
  intros cfg address. unfold format_address.
  destruct (address_enabled cfg); [|reflexivity].
  pose proof (address_components_trimmed address) as Ht.
  pose proof (address_components_plain address) as Hp.
  set (cs := map strip (filter (fun comp => nonempty (strip comp)) (split ";" address)))
    in *.
  rewrite (split_plain ";" (join ", " cs)) by (apply join_plain; [reflexivity | exact Hp]).
  clearbody cs. destruct cs as [|c cs']; [reflexivity|].
  assert (Hj : trimmed (join ", " (c :: cs')))
    by (apply join_trimmed; [discriminate | exact Ht]).
  cbn [filter]. rewrite (trimmed_strip _ Hj), (trimmed_nonempty _ Hj).
  cbn [map]. rewrite (trimmed_strip _ Hj). reflexivity.
Qed.

(** ** What a rule may change *)

Lemma only_appends_refl : forall st, only_appends st st.
Proof. intros st. split; [reflexivity|]. exists []. now rewrite app_nil_r. Qed.

Lemma only_appends_emit : forall st x p,
  only_appends st x -> only_appends st (emit p x).
Proof.
  intros st x p [Hg [ps Hs]]. split; [now destruct x|].
  exists (ps ++ [p])%list. rewrite save_emit, Hs. now rewrite app_assoc.
Qed.

Lemma only_appends_set_save : forall st x l,
  only_appends st x -> only_appends st (set_save (save x ++ l)%list x).
Proof.
  intros st x l [Hg [ps Hs]]. split; [now destruct x|].
  exists (ps ++ l)%list. destruct x; simpl in *. rewrite Hs. now rewrite app_assoc.
Qed.

Lemma only_appends_set_unknown : forall st x u,
  only_appends st x -> only_appends st (set_unknown u x).
Proof. intros st x u [Hg Hs]. split; now destruct x. Qed.

Lemma only_appends_set_unknown_name : forall st x n,
  only_appends st x -> only_appends st (set_unknown_name n x).
Proof. intros st x n [Hg Hs]. split; now destruct x. Qed.

Lemma only_appends_set_skip : forall st x b,
  only_appends st x -> only_appends st (set_skip b x).
Proof. intros st x b [Hg Hs]. split; now destruct x. Qed.

Lemma only_appends_from_skip : forall st x b,
  only_appends (set_skip b st) x -> only_appends st x.
Proof. intros st x b [Hg Hs]. split; now destruct st. Qed.

Lemma only_appends_trans : forall a b c,
  only_appends a b -> only_appends b c -> only_appends a c.
Proof.
  intros a b c [G1 [p1 S1]] [G2 [p2 S2]]. split; [congruence|].
  exists (p1 ++ p2)%list. now rewrite S2, S1, app_assoc.
Qed.

Lemma only_appends_email : forall cfg label parts st x,
  only_appends st x -> only_appends st (email_emit cfg label parts x).
Proof.
  intros cfg label. unfold email_emit.
  induction parts as [|entry parts IH]; intros st x H; [exact H|].
  cbn [fold_left]. apply IH.
  destruct (regex.vcard_comm_type_compound (strip entry)) as [[g1 g2]|]; [|exact H].
  destruct (preferred cfg && (lower g1 =? "pref")); repeat apply only_appends_emit; exact H.
Qed.

Create HintDb frame.
#[local] Hint Resolve only_appends_refl only_appends_emit only_appends_set_save
  only_appends_set_unknown only_appends_set_unknown_name only_appends_set_skip
  only_appends_email : frame.

(** Opens the [bind]s and the tests of a rule that ended well. *)
Ltac open_rule :=
  repeat match goal with
         | H : Ok _ = Ok _ |- _ => injection H as <-
         | H : Raise _ = Ok _ |- _ => discriminate H
         | H : bind ?m _ = Ok _ |- _ =>
             let E := fresh "E" in destruct m eqn:E; cbn [bind] in H
         | H : (if ?b then _ else _) = Ok _ |- _ => destruct b
         | H : match ?x with _ => _ end = Ok _ |- _ => destruct x
         | |- context [if ?b then _ else _] => destruct b
         end.

Lemma emit_part_frame : forall label parts i st st',
  emit_part label parts i st = Ok st' -> only_appends st st'.
Proof. unfold emit_part. intros. open_rule; auto with frame. Qed.

Lemma simple_rule_frame : forall label field st st',
  simple_rule label field st = Ok st' -> only_appends st st'.
Proof. unfold simple_rule. intros. open_rule; auto with frame. Qed.

Lemma n_rule_frame : forall field st st',
  n_rule field st = Ok st' -> only_appends st st'.
Proof.
  unfold n_rule. intros field st st' H.
  destruct (value_of field); cbn [bind] in H; [|discriminate].
  repeat match type of H with
         | bind (emit_part ?l ?p ?i ?s) _ = Ok _ =>
             let E := fresh "E" in
             destruct (emit_part l p i s) eqn:E; cbn [bind] in H; [|discriminate];
             apply emit_part_frame in E
         end.
  apply emit_part_frame in H.
  repeat (eapply only_appends_trans; [eassumption|]). apply only_appends_refl.
Qed.

Lemma fn_rule_frame : forall debug field st st',
  fn_rule debug field st = Ok st' -> only_appends st st'.
Proof. unfold fn_rule. intros. open_rule; auto with frame. Qed.

Lemma org_rule_frame : forall field st st',
  org_rule field st = Ok st' -> only_appends st st'.
Proof.
  unfold org_rule. intros field st st' H.
  destruct (emit_part _ _ 0 st) eqn:E; cbn [bind] in H; [|discriminate].
  apply emit_part_frame in E, H. eapply only_appends_trans; eassumption.
Qed.

Lemma email_rule_frame : forall cfg field st st',
  email_rule cfg field st = Ok st' -> only_appends st st'.
Proof. unfold email_rule. intros. open_rule; auto with frame. Qed.

Lemma tel_rule_frame : forall cfg field st st',
  tel_rule cfg field st = Ok st' -> only_appends st st'.
Proof.
  unfold tel_rule. intros. open_rule. rewrite tel_fold_pairs. auto with frame.
Qed.

Lemma address_emit_frame : forall cfg line st st',
  address_emit cfg line st = Ok st' -> only_appends st st'.
Proof. unfold address_emit. intros. open_rule; auto with frame. Qed.

Lemma typed_rule_frame : forall family field st st',
  typed_rule family field st = Ok st' -> only_appends st st'.
Proof. unfold typed_rule. intros. open_rule; auto with frame. Qed.

Lemma bday_rule_frame : forall field st st',
  bday_rule field st = Ok st' -> only_appends st st'.
Proof. unfold bday_rule. intros. open_rule; auto with frame. Qed.

Lemma unknown_rule_frame : forall debug field st,
  only_appends st (unknown_rule debug field st).
Proof. unfold unknown_rule. intros. open_rule; auto with frame. Qed.

#[local] Hint Resolve simple_rule_frame n_rule_frame fn_rule_frame org_rule_frame
  email_rule_frame tel_rule_frame address_emit_frame typed_rule_frame bday_rule_frame
  unknown_rule_frame : frame.

(** A line either appends pairs, or adds one value to the groups. *)
Lemma classify_field_frame : forall cfg debug field st st',
  classify_field cfg debug field st = Ok st' ->
  only_appends st st' \/
  (save st' = save st /\
   exists key value, groups st' = groups_append key value (groups st)).
Proof.
  intros cfg debug field st st' H. unfold classify_field, adr_rule in H.
  repeat match type of H with
         | (if ?b then _ else _) = Ok _ => destruct b
         end;
    try (left; first [ injection H as <-; auto with frame | eauto with frame ]; fail).
  destruct (regex.vcard_grouped_field field) as [[key value]|]; injection H as <-.
  - right. split; [now destruct st|]. exists (int_of_digits key), value. now destruct st.
  - left. auto with frame.
Qed.

Lemma classify_frame : forall cfg debug st line st',
  classify cfg debug st line = Ok st' ->
  only_appends st st' \/
  (save st' = save st /\
   exists key value, groups st' = groups_append key value (groups st)).
Proof.
  intros cfg debug st line st' H. unfold classify in H.
  destruct (startswith (strip line) "PHOTO;").
  { injection H as <-. left. auto with frame. }
  destruct (skip_photo st && startswith line " ").
  { injection H as <-. left. auto with frame. }
  apply classify_field_frame in H. destruct H as [H | (Hs & k & v & Hg)].
  - left. eapply only_appends_from_skip; eassumption.
  - right. split; [now destruct st|]. exists k, v. now destruct st.
Qed.

Lemma dispatch_frame : forall cfg debug group values label data st st',
  dispatch cfg debug group values label data st = Ok st' -> only_appends st st'.
Proof.
  intros cfg debug group values label data st st' H.
  unfold dispatch in H. cbv zeta in H.
  open_rule;
    try match goal with
        | H : pref_of_value _ _ _ _ _ = Ok _ |- _ =>
            apply pref_of_value_no_pair in H; subst
        end;
    auto with frame.
Qed.

Lemma resolve_group_frame : forall cfg debug st item st',
  resolve_group cfg debug st item = Ok st' -> only_appends st st'.
Proof.
  intros cfg debug st [group values] st' H. unfold resolve_group in H.
  open_rule;
    try match goal with
        | H : dispatch _ _ _ _ _ _ _ = Ok _ |- _ => apply dispatch_frame in H
        | H : address_emit _ _ _ = Ok _ |- _ => apply address_emit_frame in H
        end;
    try assumption.
  eapply only_appends_trans; [|eassumption]. auto with frame.
Qed.

Lemma for_each_frame : forall (A : Type) (body : pstate -> A -> outcome pstate) l,
  (forall st x st', body st x = Ok st' -> only_appends st st') ->
  forall st st', for_each body l st = Ok st' -> only_appends st st'.
Proof.
  intros A body l Hbody. induction l as [|x l IH]; intros st st' H; simpl in H.
  - injection H as <-. apply only_appends_refl.
  - destruct (body st x) as [s1|] eqn:E; cbn [bind] in H; [|discriminate].
    eapply only_appends_trans; [eapply Hbody; eassumption | now apply IH].
Qed.

(** The resolver appends pairs and leaves the groups as they are. *)
Lemma resolve_groups_frame : forall cfg debug st st',
  resolve_groups cfg debug st = Ok st' -> only_appends st st'.
Proof.
  intros cfg debug st st'. unfold resolve_groups.
  apply for_each_frame. intros s x s'. apply resolve_group_frame.
Qed.

(** The line loop keeps the pairs it has. *)
Lemma classify_fields_save : forall cfg debug fields st st',
  classify_fields cfg debug fields st = Ok st' ->
  exists ps, save st' = (save st ++ ps)%list.
Proof.
  intros cfg debug. unfold classify_fields.
  induction fields as [|line fields IH]; intros st st' H; simpl in H.
  - injection H as <-. exists []. now rewrite app_nil_r.
  - destruct (classify cfg debug st line) as [s1|] eqn:E; cbn [bind] in H; [|discriminate].
    destruct (IH s1 st' H) as [ps Hps].
    destruct (classify_frame _ _ _ _ _ E) as [[_ [p1 H1]] | [H1 _]].
    + exists (p1 ++ ps)%list. now rewrite Hps, H1, app_assoc.
    + exists ps. now rewrite Hps, H1.
Qed.

(** ** The groups table *)

Lemma groups_append_keys : forall key value g k,
  In k (map fst (groups_append key value g)) <-> k = key \/ In k (map fst g).
Proof.
  intros key value. induction g as [|[k0 vs] g IH]; intros k; simpl.
  - intuition congruence.
  - destruct (k0 =? key)%N eqn:E; simpl.
    + apply N.eqb_eq in E. subst. intuition congruence.
    + rewrite IH. intuition congruence.
Qed.

Lemma groups_append_ok : forall key value g,
  groups_ok g -> groups_ok (groups_append key value g).
Proof.
  intros key value. unfold groups_ok.
  induction g as [|[k0 vs] g IH]; intros [Hnd Hall]; simpl.
  - split; [repeat constructor; auto | repeat constructor; discriminate].
  - inversion Hnd as [|? ? Hk Hnd']; subst. inversion Hall as [|? ? Hv Hall']; subst.
    destruct (k0 =? key)%N eqn:E; simpl.
    + split; [now constructor|]. constructor; [|assumption].
      simpl. now destruct vs.
    + destruct (IH (conj Hnd' Hall')) as [Hn Ha]. split.
      * constructor; [|assumption]. rewrite groups_append_keys.
        apply N.eqb_neq in E. intros [->|H]; auto.
      * now constructor.
Qed.

(** X10: the groups table stays a dictionary through the line loop: whatever
    the lines, no item index is held twice (also when it is spelled with
    leading zeros) and no group has an empty value list. *)
Theorem groups_stay_a_dict : forall cfg debug fields st st',
  groups_ok (groups st) ->
  classify_fields cfg debug fields st = Ok st' ->
  groups_ok (groups st').
Proof.
  intros cfg debug. unfold classify_fields.
  induction fields as [|line fields IH]; intros st st' Hok H; simpl in H.
  - now injection H as <-.
  - destruct (classify cfg debug st line) as [s1|] eqn:E; cbn [bind] in H; [|discriminate].
    apply (IH s1 st'); [|exact H].
    destruct (classify_frame _ _ _ _ _ E) as [[Hg _] | (_ & k & v & Hg)]; rewrite Hg.
    + exact Hok.
    + now apply groups_append_ok.
Qed.

(** The statement at an entry that mentions item 1 under two spellings. *)
Lemma groups_stay_a_dict_witness :
  groups_ok
    (groups
       (set_groups [(1%N, ["X-ABLabel:Work"; "TEL:555-000-1111"]); (2%N, ["URL:x"])]
          init_state)).
Proof.
  apply (groups_stay_a_dict cfg_on false
           ["item1.X-ABLabel:Work"; "item01.TEL:555-000-1111"; "item2.URL:x"]
           init_state).
  - split; constructor.
  - reflexivity.
Defined.

(** X11: an entry only ever gains pairs: the line loop and the resolver
    append to the pair list and never change or remove a pair that is already
    there, and the resolver leaves the groups as the line loop built them. *)
Theorem entry_only_appends : forall cfg debug fields st st1 st2,
  classify_fields cfg debug fields st = Ok st1 ->
  resolve_groups cfg debug st1 = Ok st2 ->
  (exists ps, save st1 = (save st ++ ps)%list) /\
  (exists ps, save st2 = (save st1 ++ ps)%list) /\
  groups st2 = groups st1.
Proof.
  intros cfg debug fields st st1 st2 H1 H2.
  split; [now apply classify_fields_save with cfg debug fields|].
  apply resolve_groups_frame in H2. destruct H2 as [Hg Hs]. now split.
Qed.

(** The statement at an entry with a name and a grouped phone number. *)
Lemma entry_only_appends_witness :
  (exists ps,
     save (set_save [("Name: Full", "Jo")]
             (set_groups [(1%N, ["TEL:555-000-1111"; "X-ABLabel:Work"])] init_state))
     = (save init_state ++ ps)%list) /\
  (exists ps,
     save (set_save [("Name: Full", "Jo"); ("Phone: Work", "555-000-1111")]
             (set_groups [(1%N, ["TEL:555-000-1111"; "X-ABLabel:Work"])] init_state))
     = (save (set_save [("Name: Full", "Jo")]
                (set_groups [(1%N, ["TEL:555-000-1111"; "X-ABLabel:Work"])] init_state))
        ++ ps)%list) /\
  groups (set_save [("Name: Full", "Jo"); ("Phone: Work", "555-000-1111")]
            (set_groups [(1%N, ["TEL:555-000-1111"; "X-ABLabel:Work"])] init_state))
  = groups (set_save [("Name: Full", "Jo")]
              (set_groups [(1%N, ["TEL:555-000-1111"; "X-ABLabel:Work"])] init_state)).
Proof.
  apply (entry_only_appends cfg_on false
           ["FN:Jo"; "item1.TEL:555-000-1111"; "item1.X-ABLabel:Work"] init_state);
    reflexivity.
Defined.

(** ** The debug flag *)

Lemma same_result_refl : forall st, same_result st st.
Proof. intros st. repeat split. Qed.

Lemma same_result_emit : forall p a b,
  same_result a b -> same_result (emit p a) (emit p b).
Proof. intros p [] [] (H1 & H2 & H3); simpl in *; subst. repeat split. Qed.

Lemma same_result_set_save : forall l a b,
  same_result a b ->
  same_result (set_save (save a ++ l)%list a) (set_save (save b ++ l)%list b).
Proof. intros l [] [] (H1 & H2 & H3); simpl in *; subst. repeat split. Qed.

Lemma same_result_set_skip : forall s a b,
  same_result a b -> same_result (set_skip s a) (set_skip s b).
Proof. intros s [] [] (H1 & H2 & H3); simpl in *; subst. repeat split. Qed.

Lemma same_result_set_groups : forall g a b,
  same_result a b -> same_result (set_groups g a) (set_groups g b).
Proof. intros g [] [] (H1 & H2 & H3); simpl in *; subst. repeat split. Qed.

Lemma same_result_unknown_l : forall u a b,
  same_result a b -> same_result (set_unknown u a) b.
Proof. intros u [] [] (H1 & H2 & H3); simpl in *; subst. repeat split. Qed.

Lemma same_result_unknown_r : forall u a b,
  same_result a b -> same_result a (set_unknown u b).
Proof. intros u [] [] (H1 & H2 & H3); simpl in *; subst. repeat split. Qed.

Lemma same_result_name_l : forall n a b,
  same_result a b -> same_result (set_unknown_name n a) b.
Proof. intros n [] [] (H1 & H2 & H3); simpl in *; subst. repeat split. Qed.

Lemma same_result_name_r : forall n a b,
  same_result a b -> same_result a (set_unknown_name n b).
Proof. intros n [] [] (H1 & H2 & H3); simpl in *; subst. repeat split. Qed.

Lemma same_result_email : forall cfg label parts a b,
  same_result a b ->
  same_result (email_emit cfg label parts a) (email_emit cfg label parts b).
Proof.
  intros cfg label. unfold email_emit.
  induction parts as [|entry parts IH]; intros a b H; [exact H|].
  cbn [fold_left]. apply IH.
  destruct (regex.vcard_comm_type_compound (strip entry)) as [[g1 g2]|]; [|exact H].
  destruct (preferred cfg && (lower g1 =? "pref")); repeat apply same_result_emit; exact H.
Qed.

Create HintDb debug_free.
#[local] Hint Resolve same_result_refl same_result_emit same_result_set_save
  same_result_set_skip same_result_set_groups same_result_unknown_l
  same_result_unknown_r same_result_name_l same_result_name_r same_result_email
  : debug_free.

(** Walks through two runs of one rule on states with the same result. *)
Ltac same_run :=
  repeat match goal with
         | |- same_outcome (bind ?m _) (bind ?m _) =>
             destruct m; cbn [bind same_outcome]
         | |- same_outcome (Ok _) (Ok _) => cbn [same_outcome]
         | |- same_outcome (Raise _) (Raise _) => reflexivity
         | |- same_outcome (match ?x with _ => _ end) (match ?x with _ => _ end) =>
             destruct x
         | |- same_outcome (if ?b then _ else _) (if ?b then _ else _) => destruct b
         | |- same_result (if ?b then _ else _) _ => destruct b
         | |- same_result _ (if ?b then _ else _) => destruct b
         end;
  auto 8 with debug_free.

Lemma emit_part_same : forall label parts i a b,
  same_result a b ->
  same_outcome (emit_part label parts i a) (emit_part label parts i b).
Proof. unfold emit_part. intros. same_run. Qed.

Lemma same_outcome_bind : forall (m1 m2 : outcome pstate) (k1 k2 : pstate -> outcome pstate),
  same_outcome m1 m2 ->
  (forall a b, same_result a b -> same_outcome (k1 a) (k2 b)) ->
  same_outcome (bind m1 k1) (bind m2 k2).
Proof.
  intros [a|e1] [b|e2] k1 k2 H Hk; simpl in *; try contradiction; auto.
Qed.

Lemma n_rule_same : forall field a b,
  same_result a b -> same_outcome (n_rule field a) (n_rule field b).
Proof.
  unfold n_rule. intros field a b H.
  destruct (value_of field); cbn [bind]; [|reflexivity].
  repeat (apply same_outcome_bind; [now apply emit_part_same | clear a b H; intros a b H]).
  now apply emit_part_same.
Qed.

Lemma org_rule_same : forall field a b,
  same_result a b -> same_outcome (org_rule field a) (org_rule field b).
Proof.
  unfold org_rule. intros field a b H.
  apply same_outcome_bind; [now apply emit_part_same | intros; now apply emit_part_same].
Qed.

Lemma simple_rule_same : forall label field a b,
  same_result a b -> same_outcome (simple_rule label field a) (simple_rule label field b).
Proof. unfold simple_rule. intros. same_run. Qed.

Lemma fn_rule_same : forall d1 d2 field a b,
  same_result a b -> same_outcome (fn_rule d1 field a) (fn_rule d2 field b).
Proof. unfold fn_rule. intros [] [] field a b H; same_run. Qed.

Lemma email_rule_same : forall cfg field a b,
  same_result a b -> same_outcome (email_rule cfg field a) (email_rule cfg field b).
Proof. unfold email_rule. intros. same_run. Qed.

Lemma tel_rule_same : forall cfg field a b,
  same_result a b -> same_outcome (tel_rule cfg field a) (tel_rule cfg field b).
Proof.
  unfold tel_rule. intros cfg field a b H.
  destruct (params_of field); cbn [bind same_outcome]; [|reflexivity].
  rewrite !tel_fold_pairs. auto with debug_free.
Qed.

Lemma address_emit_same : forall cfg line a b,
  same_result a b -> same_outcome (address_emit cfg line a) (address_emit cfg line b).
Proof. unfold address_emit. intros. same_run. Qed.

Lemma typed_rule_same : forall family field a b,
  same_result a b -> same_outcome (typed_rule family field a) (typed_rule family field b).
Proof. unfold typed_rule. intros. same_run. Qed.

Lemma bday_rule_same : forall field a b,
  same_result a b -> same_outcome (bday_rule field a) (bday_rule field b).
Proof. unfold bday_rule. intros. same_run. Qed.

Lemma unknown_rule_same : forall d1 d2 field a b,
  same_result a b -> same_result (unknown_rule d1 field a) (unknown_rule d2 field b).
Proof. unfold unknown_rule. intros [] [] field a b H; auto 8 with debug_free. Qed.

Lemma classify_field_same : forall cfg d1 d2 field a b,
  same_result a b ->
  same_outcome (classify_field cfg d1 field a) (classify_field cfg d2 field b).
Proof.
  intros cfg d1 d2 field a b H. unfold classify_field, adr_rule.
  repeat match goal with
         | |- same_outcome (if ?c then _ else _) (if ?c then _ else _) => destruct c
         end;
    auto using n_rule_same, org_rule_same, simple_rule_same, fn_rule_same,
      email_rule_same, tel_rule_same, address_emit_same, typed_rule_same, bday_rule_same.
  - cbn [same_outcome]. auto with debug_free.
  - destruct (regex.vcard_grouped_field field) as [[key value]|]; cbn [same_outcome].
    + rewrite (proj1 (proj2 H)). now apply same_result_set_groups.
    + now apply unknown_rule_same.
Qed.

Lemma classify_same : forall cfg d1 d2 line a b,
  same_result a b ->
  same_outcome (classify cfg d1 a line) (classify cfg d2 b line).
Proof.
  intros cfg d1 d2 line a b H. unfold classify.
  rewrite (proj1 H).
  destruct (startswith (strip line) "PHOTO;"); [cbn; auto with debug_free|].
  destruct (skip_photo b && startswith line " "); [exact H|].
  apply classify_field_same. auto with debug_free.
Qed.

Lemma pref_of_value_same : forall cfg label value data a b,
  same_result a b ->
  same_outcome (pref_of_value cfg label value data a)
               (pref_of_value cfg label value data b).
Proof. unfold pref_of_value. intros. same_run. Qed.

Lemma dispatch_same : forall cfg d1 d2 group values label data a b,
  same_result a b ->
  same_outcome (dispatch cfg d1 group values label data a)
               (dispatch cfg d2 group values label data b).
Proof.
  intros cfg d1 d2 group values label data a b H.
  unfold dispatch. cbv zeta.
  repeat match goal with
         | |- same_outcome (if ?c then _ else _) (if ?c then _ else _) => destruct c
         | |- same_outcome (bind ?m _) (bind ?m _) =>
             destruct m; cbn [bind same_outcome]
         | |- same_outcome (Raise _) (Raise _) => reflexivity
         | |- same_outcome (pref_of_value _ _ _ _ _) (pref_of_value _ _ _ _ _) =>
             apply pref_of_value_same
         end;
    try (cbn [same_outcome]; auto 8 with debug_free; fail).
  all: cbn [same_outcome];
    repeat match goal with
           | |- context [if ?c then _ else _] => destruct c
           end;
    auto 8 with debug_free.
Qed.

Lemma resolve_group_same : forall cfg d1 d2 item a b,
  same_result a b ->
  same_outcome (resolve_group cfg d1 a item) (resolve_group cfg d2 b item).
Proof.
  intros cfg d1 d2 [group values] a b H. unfold resolve_group.
  repeat match goal with
         | |- same_outcome (if ?c then _ else _) (if ?c then _ else _) => destruct c
         | |- same_outcome (bind ?m _) (bind ?m _) =>
             destruct m; cbn [bind same_outcome]
         | |- same_outcome (Raise _) (Raise _) => reflexivity
         end;
    try reflexivity;
    first [ apply dispatch_same | apply address_emit_same ]; auto with debug_free.
Qed.

Lemma for_each_same : forall (A : Type) (body1 body2 : pstate -> A -> outcome pstate) l,
  (forall a b x, same_result a b -> same_outcome (body1 a x) (body2 b x)) ->
  forall a b, same_result a b ->
  same_outcome (for_each body1 l a) (for_each body2 l b).
Proof.
  intros A body1 body2 l Hbody. induction l as [|x l IH]; intros a b H; simpl.
  - exact H.
  - apply same_outcome_bind; [now apply Hbody | exact IH].
Qed.

Lemma parse_fields_same : forall cfg d1 d2 fields,
  same_outcome (parse_fields cfg d1 fields) (parse_fields cfg d2 fields).
Proof.
  intros cfg d1 d2 fields. unfold parse_fields, classify_fields, resolve_groups.
  apply same_outcome_bind.
  - apply for_each_same; [|apply same_result_refl].
    intros a b x H. now apply classify_same.
  - intros a b H. rewrite (proj1 (proj2 H)).
    apply for_each_same; [|exact H].
    intros a' b' x H'. now apply resolve_group_same.
Qed.

Lemma parse_entry_debug : forall cfg d1 d2 entry,
  parse_entry cfg d1 entry = parse_entry cfg d2 entry.
Proof.
  intros cfg d1 d2 entry. unfold parse_entry.
  pose proof (parse_fields_same cfg d1 d2 (splitlines entry)) as H.
  destruct (parse_fields cfg d1 (splitlines entry)) as [a|e1],
           (parse_fields cfg d2 (splitlines entry)) as [b|e2];
    simpl in *; try contradiction.
  - now rewrite (proj2 (proj2 H)).
  - now subst.
Qed.

Lemma for_each_ext : forall (A S : Type) (body1 body2 : S -> A -> outcome S) l s,
  (forall s x, body1 s x = body2 s x) ->
  for_each body1 l s = for_each body2 l s.
Proof.
  intros A S body1 body2 l s H. revert s.
  induction l as [|x l IH]; intros s; simpl; [reflexivity|].
  rewrite H. destruct (body2 s x); simpl; [apply IH | reflexivity].
Qed.

(** X12: the debug flag changes nothing in what the parser returns: the
    record list of a file, or the exception that ends the run, is the same
    with the unknown report on and off. *)
Theorem debug_does_not_change_records : forall cfg debug content,
  parse_vcard cfg debug content = parse_vcard cfg false content.
Proof.
  intros cfg debug content. unfold parse_vcard.
  apply for_each_ext. intros output entry.
  now rewrite (parse_entry_debug cfg debug false entry).
Qed.

(** * Properties of the renderers *)

(** ** The headers *)

Lemma compare_gt_lt : forall a b, String.compare a b = Gt -> str_lt b a.
Proof.
  intros a b H. apply str_lt_compare.
  rewrite String.compare_antisym, H. reflexivity.
Qed.

Lemma insert_unique_In : forall x l y,
  In y (insert_unique x l) <-> y = x \/ In y l.
Proof.
  intros x. induction l as [|z l IH]; intros y; simpl; [intuition congruence|].
  destruct (String.compare x z) eqn:E; simpl.
  - apply String.compare_eq_iff in E. subst. intuition congruence.
  - intuition congruence.
  - rewrite IH. intuition congruence.
Qed.

Lemma insert_unique_sorted : forall x l,
  StronglySorted str_lt l -> StronglySorted str_lt (insert_unique x l).
Proof.
  intros x. induction 1 as [|z l Hs IH Hall]; simpl; [repeat constructor|].
  destruct (String.compare x z) eqn:E.
  - now constructor.
  - apply str_lt_compare in E. constructor; [now constructor|].
    constructor; [exact E|].
    eapply Forall_impl; [|exact Hall]. intros a Ha. eapply str_lt_trans; eassumption.
  - constructor; [exact IH|].
    apply Forall_forall. intros a Ha. apply insert_unique_In in Ha.
    destruct Ha as [->|Ha]; [now apply compare_gt_lt|].
    rewrite Forall_forall in Hall. now apply Hall.
Qed.

Lemma sorted_set_In : forall l y, In y (sorted_set l) <-> In y l.
Proof.
  unfold sorted_set. induction l as [|x l IH]; intros y; simpl; [tauto|].
  rewrite insert_unique_In, IH. intuition congruence.
Qed.

Lemma sorted_set_sorted : forall l, StronglySorted str_lt (sorted_set l).
Proof.
  unfold sorted_set. induction l as [|x l IH]; simpl; [constructor|].
  now apply insert_unique_sorted.
Qed.

(** The headers are the input of the column ordering in another order. *)
Lemma headers_permutation : forall cfg save,
  Permutation (headers_of cfg save) (unique_headers_of save).
Proof.
  intros cfg save. unfold headers_of.
  pose proof (strongly_sorted_nodup _ (sorted_set_sorted (labels_of save))) as Hnd.
  fold (unique_headers_of save) in Hnd.
  destruct (reorder_enabled cfg) eqn:Hon.
  - destruct (column_ordering_reordered cfg _ Hon Hnd) as (placed & Heq & _ & Hperm & _).
    rewrite Heq. exact Hperm.
  - unfold custom_column_ordering. rewrite Hon. reflexivity.
Qed.

Lemma headers_nodup : forall cfg save, NoDup (headers_of cfg save).
Proof.
  intros cfg save.
  apply (Permutation_NoDup (Permutation_sym (headers_permutation cfg save))).
  apply strongly_sorted_nodup, sorted_set_sorted.
Qed.

Lemma headers_In : forall cfg save h,
  In h (headers_of cfg save) <-> In h (labels_of save).
Proof.
  intros cfg save h. rewrite <- (sorted_set_In (labels_of save)). split.
  - apply Permutation_in, headers_permutation.
  - apply Permutation_in, Permutation_sym, headers_permutation.
Qed.

(** X13: whatever the reordering flag, the headers the renderers use hold
    every label that occurs in the records, each exactly once, and nothing
    else: no label is left without a column and no column is made up. *)
Theorem headers_are_the_labels : forall cfg save,
  NoDup (headers_of cfg save) /\
  forall h,
    In h (headers_of cfg save) <->
    exists entry value, In entry save /\ In (h, value) entry.
Proof.
  intros cfg save. split; [apply headers_nodup|].
  intros h. rewrite headers_In. unfold labels_of. rewrite in_flat_map. split.
  - intros (entry & He & Hh). apply in_map_iff in Hh.
    destruct Hh as ([l v] & <- & Hp). now exists entry, v.
  - intros (entry & v & He & Hp). exists entry. split; [exact He|].
    apply in_map_iff. now exists (h, v).
Qed.

(** ** Dictionaries *)

Lemma dict_get_set_same : forall (V : Type) k (v : V) d,
  dict_get k (dict_set k v d) = Some v.
Proof.
  intros V k v. induction d as [|[k' v'] d IH]; simpl.
  - now rewrite String.eqb_refl.
  - destruct (k' =? k) eqn:E; simpl; rewrite E; [reflexivity | exact IH].
Qed.

Lemma dict_get_set_other : forall (V : Type) k k0 (v : V) d,
  k0 <> k -> dict_get k0 (dict_set k v d) = dict_get k0 d.
Proof.
  intros V k k0 v d Hne. induction d as [|[k' v'] d IH]; simpl.
  - destruct (k =? k0) eqn:E; [|reflexivity].
    apply String.eqb_eq in E. congruence.
  - destruct (k' =? k) eqn:E; simpl.
    + apply String.eqb_eq in E. subst k'.
      destruct (k =? k0) eqn:E0; [|reflexivity].
      apply String.eqb_eq in E0. congruence.
    + now rewrite IH.
Qed.

Lemma dict_get_absent : forall (V : Type) k (d : list (string * V)),
  ~ In k (map fst d) -> dict_get k d = None.
Proof.
  intros V k. induction d as [|[k' v'] d IH]; intros H; simpl; [reflexivity|].
  simpl in H. destruct (k' =? k) eqn:E.
  - apply String.eqb_eq in E. tauto.
  - apply IH. tauto.
Qed.

Lemma dict_set_absent : forall (V : Type) k (v : V) d,
  ~ In k (map fst d) -> dict_set k v d = (d ++ [(k, v)])%list.
Proof.
  intros V k v. induction d as [|[k' v'] d IH]; intros H; simpl; [reflexivity|].
  simpl in H. destruct (k' =? k) eqn:E.
  - apply String.eqb_eq in E. tauto.
  - rewrite IH by tauto. reflexivity.
Qed.

(** A dictionary built key by key from distinct keys lists them in order. *)
Lemma dict_built : forall (V : Type) (f : string -> V) l d,
  NoDup l ->
  (forall k, In k l -> ~ In k (map fst d)) ->
  fold_left (fun d k => dict_set k (f k) d) l d
  = (d ++ map (fun k => (k, f k)) l)%list.
Proof.
  intros V f. induction l as [|k l IH]; intros d Hnd Hd; simpl.
  - now rewrite app_nil_r.
  - inversion Hnd as [|? ? Hk Hl]; subst.
    rewrite dict_set_absent by (apply Hd; now left).
    rewrite IH; [now rewrite <- app_assoc | exact Hl |].
    intros k0 H0. rewrite map_app, in_app_iff. simpl.
    intros [H|[->|[]]]; [|contradiction]. apply (Hd k0); [now right | exact H].
Qed.

Lemma dict_get_map : forall (V : Type) (f : string -> V) l k,
  In k l -> dict_get k (map (fun k => (k, f k)) l) = Some (f k).
Proof.
  intros V f. induction l as [|k0 l IH]; intros k H; simpl; [contradiction|].
  destruct (k0 =? k) eqn:E.
  - apply String.eqb_eq in E. now subst.
  - apply IH. destruct H as [->|H]; [now rewrite String.eqb_refl in E | exact H].
Qed.

(** ** CSV rows *)

Lemma multi_get_append_same : forall k v d,
  multi_get k (multi_append k v d) = (multi_get k d ++ [v])%list.
Proof.
  intros k v d. unfold multi_get, multi_append.
  destruct (dict_get k d) eqn:E; now rewrite dict_get_set_same.
Qed.

Lemma multi_get_append_other : forall k k0 v d,
  k0 <> k -> multi_get k0 (multi_append k v d) = multi_get k0 d.
Proof.
  intros k k0 v d H. unfold multi_get, multi_append.
  destruct (dict_get k d); now rewrite dict_get_set_other.
Qed.

(** What [row_dict] holds under a label once the loop is over. *)
Lemma csv_row_dict_get : forall headers h sublist d,
  multi_get h
    (fold_left
       (fun row_dict p =>
          if mem (fst p) headers
          then multi_append (fst p) (csv_escape (snd p)) row_dict
          else row_dict)
       sublist d)
  = (multi_get h d
     ++ (if mem h headers
         then map (fun p => csv_escape (snd p)) (filter (fun p => fst p =? h) sublist)
         else []))%list.
Proof.
  intros headers h. induction sublist as [|[l v] sublist IH]; intros d; cbn [fold_left].
  - destruct (mem h headers); now rewrite app_nil_r.
  - rewrite IH. cbn [fst snd filter].
    destruct (l =? h) eqn:E.
    + apply String.eqb_eq in E. subst l.
      destruct (mem h headers); [|reflexivity].
      rewrite multi_get_append_same. cbn [map]. now rewrite <- app_assoc.
    + assert (h <> l) by (intros ->; now rewrite String.eqb_refl in E).
      destruct (mem l headers); [|reflexivity].
      now rewrite multi_get_append_other.
Qed.

(** The cell of a header in the row of a contact. *)
Lemma csv_row_get : forall cfg save sublist h,
  In h (headers_of cfg save) ->
  dict_get h (csv_row (headers_of cfg save) sublist)
  = Some (join ", "
            (map (fun p => csv_escape (snd p))
               (filter (fun p => fst p =? h) sublist))).
Proof.
  intros cfg save sublist h Hh. unfold csv_row.
  rewrite dict_built by (try apply headers_nodup; intros k _ []).
  cbn [app].
  rewrite dict_get_map with (f := fun k =>
    join ", " (multi_get k (csv_row_dict (headers_of cfg save) sublist)))
    by exact Hh.
  unfold csv_row_dict. rewrite csv_row_dict_get.
  apply mem_In in Hh. now rewrite Hh.
Qed.

(** X14: the row of a contact has one cell for each header, in the order of
    the headers, and the cell of a header holds the values of the contact's
    pairs with that label, escaped, in their order, joined by a comma and a
    space (the empty text when the contact has no such pair). *)
Theorem csv_row_cells : forall cfg save sublist,
  map fst (csv_row (headers_of cfg save) sublist) = headers_of cfg save /\
  forall h,
    In h (headers_of cfg save) ->
    dict_get h (csv_row (headers_of cfg save) sublist)
    = Some (join ", "
              (map (fun p => csv_escape (snd p))
                 (filter (fun p => fst p =? h) sublist))).
Proof.
  intros cfg save sublist. split.
  - unfold csv_row.
    rewrite dict_built by (try apply headers_nodup; intros k _ []).
    cbn [app]. rewrite map_map. cbn [fst]. apply map_id.
  - intros h Hh. now apply csv_row_get.
Qed.

(** ** The console *)

Lemma dict_of_pairs_keeps : forall k (entry d : list (string * string)),
  ~ In k (map fst entry) ->
  dict_get k (fold_left (fun d p => dict_set (fst p) (snd p) d) entry d) = dict_get k d.
Proof.
  intros k. induction entry as [|[l v] entry IH]; intros d H; simpl; [reflexivity|].
  simpl in H. rewrite IH by tauto. apply dict_get_set_other. intros ->. tauto.
Qed.

(** [dict(entry)] keeps, for a label, the value of the last pair with it. *)
Lemma dict_of_pairs_last : forall e1 l v e2,
  ~ In l (map fst e2) ->
  dict_get l (dict_of_pairs (e1 ++ (l, v) :: e2)) = Some v.
Proof.
  intros e1 l v e2 H. unfold dict_of_pairs.
  rewrite fold_left_app. cbn [fold_left fst snd].
  rewrite dict_of_pairs_keeps by exact H. apply dict_get_set_same.
Qed.

Lemma console_lines_bound : forall (d : list (string * string)) headers,
  List.length
    (flat_map
       (fun label =>
          match dict_get label d with
          | Some value => if nonempty value then ["  " ++ label ++ ": " ++ value] else []
          | None => []
          end)
       headers)
  <= List.length headers.
Proof.
  intros d. induction headers as [|h headers IH]; cbn [flat_map List.length]; [lia|].
  rewrite length_app.
  destruct (dict_get h d) as [v|]; [destruct (nonempty v)|]; cbn [List.length]; lia.
Qed.

(** X15: on the console a contact shows at most one line for each header:
    when several of its pairs have the same label, the line of that label
    shows the value of the last of them (if that value is not empty). *)
Theorem console_shows_last_value : forall headers e1 l v e2,
  In l headers ->
  ~ In l (map fst e2) ->
  nonempty v = true ->
  dict_get l (dict_of_pairs (e1 ++ (l, v) :: e2)) = Some v /\
  In ("  " ++ l ++ ": " ++ v) (console_entry headers (e1 ++ (l, v) :: e2)) /\
  List.length (console_entry headers (e1 ++ (l, v) :: e2)) <= S (List.length headers).
Proof.
  intros headers e1 l v e2 Hl He2 Hv.
  pose proof (dict_of_pairs_last e1 l v e2 He2) as Hget.
  split; [exact Hget|]. unfold console_entry. split.
  - right. apply in_flat_map. exists l. split; [exact Hl|].
    rewrite Hget, Hv. now left.
  - cbn [List.length]. apply le_n_S, console_lines_bound.
Qed.

(** The statement at a contact with two mobile numbers. *)
Lemma console_shows_last_value_witness :
  dict_get "Phone: Cell"
    (dict_of_pairs ([("Phone: Cell", "555-000-1111")]
                    ++ ("Phone: Cell", "555-000-2222") :: [("Note", "x")]))
  = Some "555-000-2222" /\
  In ("  " ++ "Phone: Cell" ++ ": " ++ "555-000-2222")
    (console_entry ["Note"; "Phone: Cell"]
       ([("Phone: Cell", "555-000-1111")]
        ++ ("Phone: Cell", "555-000-2222") :: [("Note", "x")])) /\
  List.length
    (console_entry ["Note"; "Phone: Cell"]
       ([("Phone: Cell", "555-000-1111")]
        ++ ("Phone: Cell", "555-000-2222") :: [("Note", "x")]))
  <= S (List.length ["Note"; "Phone: Cell"]).
Proof.
  apply (console_shows_last_value ["Note"; "Phone: Cell"]
           [("Phone: Cell", "555-000-1111")] "Phone: Cell" "555-000-2222"
           [("Note", "x")]).
  - simpl. tauto.
  - simpl. intros [H|[]]. discriminate H.
  - reflexivity.
Defined.

(** ** JSON clean-up *)

(** Induction on a value through the values of its dictionaries. *)
Lemma json_dict_ind : forall P : json -> Prop,
  (forall s, P (JStr s)) ->
  (forall l, P (JList l)) ->
  (forall d, Forall (fun kv => P (snd kv)) d -> P (JDict d)) ->
  forall j, P j.
Proof.
  intros P HS HL HD. fix F 1. intros [s|l|d].
  - apply HS.
  - apply HL.
  - apply HD. induction d as [|kv d IHd]; constructor; [apply F | exact IHd].
Qed.

Lemma filter_truthy_texts : forall vs,
  filter truthy (map JStr vs) = map JStr (filter nonempty vs).
Proof.
  induction vs as [|v vs IH]; simpl; [reflexivity|].
  destruct (nonempty v); simpl; now rewrite IH.
Qed.

(** X16: on a dictionary whose values are lists of texts the clean-up drops
    the empty texts of every list, then drops the key when nothing is left,
    puts the text itself in place of a list of one text, and keeps a longer
    list; the keys that remain keep their order. *)
Theorem convert_lists_of_texts : forall d : list (string * list string),
  convert_single_item_lists
    (JDict (map (fun kv => (fst kv, JList (map JStr (snd kv)))) d))
  = JDict
      (flat_map
         (fun kv =>
            match filter nonempty (snd kv) with
            | [] => []
            | [v] => [(fst kv, JStr v)]
            | vs => [(fst kv, JList (map JStr vs))]
            end)
         d).
Proof.
  intros d. cbn [convert_single_item_lists]. f_equal.
  induction d as [|[k vs] d IH]; [reflexivity|].
  cbn [map flat_map fst snd]. rewrite IH. f_equal.
  cbn [convert_single_item_lists]. rewrite filter_truthy_texts.
  destruct (filter nonempty vs) as [|v [|v' vs']] eqn:E; [reflexivity | |reflexivity].
  cbn [map truthy].
  assert (Hv : In v (filter nonempty vs)) by (rewrite E; now left).
  apply filter_In in Hv. now rewrite (proj2 Hv).
Qed.

(** X17: after the clean-up of a value whose lists hold texts only, no
    dictionary at any depth holds an empty text, an empty list or an empty
    dictionary. *)
Theorem convert_leaves_no_empty_value : forall j,
  lists_of_texts j = true ->
  no_empty_value (convert_single_item_lists j) = true.
Proof.
  induction j as [s | l | d IH] using json_dict_ind; intros H.
  - reflexivity.
  - cbn [convert_single_item_lists].
    destruct (filter truthy l) as [|x [|y l']] eqn:E; try reflexivity.
    assert (Hx : In x (filter truthy l)) by (rewrite E; now left).
    apply filter_In in Hx. cbn [lists_of_texts] in H.
    rewrite forallb_forall in H. specialize (H x (proj1 Hx)).
    now destruct x.
  - cbn [convert_single_item_lists no_empty_value].
    cbn [lists_of_texts] in H.
    induction d as [|[k v] d IHd]; [reflexivity|].
    inversion IH as [|? ? Hv Hd]; subst. cbn [snd] in Hv.
    cbn [forallb snd] in H. apply andb_prop in H. destruct H as [H1 H2].
    cbn [flat_map fst snd]. rewrite forallb_app, (IHd Hd H2), andb_true_r.
    destruct (truthy (convert_single_item_lists v)) eqn:Et; [|reflexivity].
    cbn [forallb snd]. now rewrite Et, (Hv H1).
Qed.

(** The statement at a row with an empty group and an empty note. *)
Lemma convert_leaves_no_empty_value_witness :
  no_empty_value
    (convert_single_item_lists
       (JDict [("Email", JDict [("Work", JList [JStr "a@b.c"]); ("Home", JList [])]);
               ("Date", JDict [("Birthday", JList [JStr ""])]);
               ("Note", JStr "")]))
  = true.
Proof.
  apply (convert_leaves_no_empty_value
           (JDict [("Email", JDict [("Work", JList [JStr "a@b.c"]); ("Home", JList [])]);
                   ("Date", JDict [("Birthday", JList [JStr ""])]);
                   ("Note", JStr "")])).
  reflexivity.
Defined.

(** * Further properties of the line rules *)

(** ** Lines stored as they are *)

(** Runs the rule table on a trimmed line with a known prefix. *)
Ltac run_value_rule r :=
  unfold classify_field, fn_rule, simple_rule, value_of;
  cbn -[strip emit set_unknown_name];
  change (String.prefix EmptyString (rstrip r)) with (startswith (rstrip r) EmptyString);
  rewrite ?startswith_empty; cbn -[strip emit set_unknown_name].

(** X18: a line that starts with one of the nine prefixes [FN:], [NICKNAME:],
    [X-MAIDENNAME:], [X-PHONETIC-FIRST-NAME:], [X-PHONETIC-MIDDLE-NAME:],
    [X-PHONETIC-LAST-NAME:], [X-PHONETIC-ORG:], [TITLE:], [NOTE:] is
    classified without error into exactly one pair: the label of the prefix
    and the trimmed text after the prefix, whatever that text is (also when
    it is empty); the groups are left alone. *)
Theorem value_line_pair : forall cfg debug st line prefix label,
  In (prefix, label) value_rules ->
  startswith line prefix = true ->
  exists st',
    classify cfg debug st line = Ok st' /\
    save st' = (save st ++ [(label, strip (drop (String.length prefix) (strip line)))])%list /\
    groups st' = groups st.
Proof.
  intros cfg debug st line prefix label Hin H.
  assert (Hs : strip line = prefix ++ rstrip (drop (String.length prefix) line)).
  { apply strip_prefix; [| |exact H];
      unfold value_rules in Hin; simpl in Hin;
      repeat (destruct Hin as [Hin|Hin]; [injection Hin as <- <-|]);
      try contradiction; try discriminate; no_space. }
  apply startswith_inv in H.
  remember (drop (String.length prefix) line) as r eqn:Er. clear Er. subst line.
  unfold classify. rewrite Hs.
  unfold value_rules in Hin. simpl in Hin.
  repeat (destruct Hin as [Hin|Hin]; [injection Hin as <- <-|]); try contradiction;
    cbn -[classify_field strip]; rewrite andb_false_r;
    run_value_rule r;
    eexists; (split; [reflexivity|]);
    destruct debug, st; split; reflexivity.
Qed.

(** The statement at a note. *)
Lemma value_line_pair_witness :
  exists st',
    classify cfg_on true init_state "NOTE: call back " = Ok st' /\
    save st' = (save init_state
                ++ [("Note", strip (drop (String.length "NOTE:") (strip "NOTE: call back ")))])%list /\
    groups st' = groups init_state.
Proof.
  apply (value_line_pair cfg_on true init_state "NOTE: call back " "NOTE:" "Note").
  - unfold value_rules. simpl. tauto.
  - reflexivity.
Defined.

(** ** Lines that vanish *)

Lemma tel_pairs_none : forall cfg parts labels,
  compound_count parts = 0 -> tel_pairs cfg labels parts = [].
Proof.
  intros cfg parts labels H.
  destruct (tel_pairs_count cfg parts labels) as [Hl _].
  rewrite H in Hl. destruct (preferred cfg).
  - assert (pref_count parts = 0)
      by (destruct (tel_pairs_count cfg parts labels) as [_ Hle]; lia).
    destruct (tel_pairs cfg labels parts); [reflexivity | simpl in Hl; lia].
  - destruct (tel_pairs cfg labels parts); [reflexivity | simpl in Hl; lia].
Qed.

Lemma email_emit_none : forall cfg label parts st,
  compound_count parts = 0 -> email_emit cfg label parts st = st.
Proof.
  intros cfg label. unfold email_emit, compound_count.
  induction parts as [|entry parts IH]; intros st H; [reflexivity|].
  cbn [fold_left]. cbn [filter] in H.
  destruct (regex.vcard_comm_type_compound (strip entry)); [discriminate|].
  now apply IH.
Qed.

Lemma classify_email : forall cfg debug st line,
  startswith line "EMAIL;" = true ->
  startswith (strip line) "EMAIL;" = true /\
  classify cfg debug st line = email_rule cfg (strip line) (set_skip false st).
Proof.
  intros cfg debug st line H.
  assert (Hs : strip line = "EMAIL;" ++ rstrip (drop 6 line)).
  { apply (strip_prefix "EMAIL;"); [discriminate | no_space | assumption]. }
  apply startswith_inv in H. cbn [String.length] in *.
  remember (drop 6 line) as r eqn:Er. clear Er. subst line.
  split; [rewrite Hs; apply startswith_app|].
  unfold classify. rewrite Hs. cbn -[classify_field].
  rewrite andb_false_r. unfold classify_field. cbn -[email_rule].
  change (String.prefix EmptyString (rstrip r)) with (startswith (rstrip r) EmptyString).
  now rewrite startswith_empty.
Qed.

(** X19: a [TEL;] or [EMAIL;] line none of whose parameters has the form
    [type=X:value] vanishes: it is classified without error, and neither a
    pair nor an [Unknown] entry is stored for it. *)
Theorem line_without_compound_vanishes : forall cfg debug st line parts,
  startswith line "TEL;" = true \/ startswith line "EMAIL;" = true ->
  params_of (strip line) = Ok parts ->
  compound_count parts = 0 ->
  classify cfg debug st line = Ok (set_skip false st).
Proof.
  intros cfg debug st line parts [H|H] Hp Hc.
  - destruct (classify_tel cfg debug st line H) as [Hs ->].
    destruct (tel_rule_pairs cfg (strip line) (set_skip false st) Hs) as (parts' & Hp' & ->).
    assert (parts' = parts) by congruence. subst parts'.
    rewrite (tel_pairs_none cfg parts _ Hc). now rewrite set_save_same.
  - destruct (classify_email cfg debug st line H) as [Hs ->].
    unfold email_rule. rewrite Hp. cbn [bind].
    now rewrite (email_emit_none cfg _ parts _ Hc).
Qed.

(** The statement at a phone line that has lost its number. *)
Lemma line_without_compound_vanishes_witness :
  classify cfg_on true init_state "TEL;type=CELL;type=VOICE"
  = Ok (set_skip false init_state).
Proof.
  apply (line_without_compound_vanishes cfg_on true init_state
           "TEL;type=CELL;type=VOICE" ["type=CELL"; "type=VOICE"]).
  - left. reflexivity.
  - reflexivity.
  - reflexivity.
Defined.

(** ** Labelled phone groups *)

Lemma split_str_skip : forall sep p l,
  split_str_from sep (String.length p) (p ++ l) = split_str_from sep 0 l.
Proof.
  intros sep. induction p as [|c p IH]; intros l; [reflexivity|].
  cbn [String.length append split_str_from]. apply IH.
Qed.

(** A text that starts with the separator splits into the empty piece and the
    pieces of the rest. *)
Lemma split_str_head : forall c sep l,
  split_str (String c sep) (String c sep ++ l)
  = EmptyString :: split_str (String c sep) l.
Proof.
  intros c sep l. unfold split_str.
  cbn [append split_str_from].
  change (String.prefix (String c sep) (String c (sep ++ l)))
    with (startswith (String c sep ++ l) (String c sep)).
  rewrite startswith_app.
  replace (String.length (String c sep) - 1) with (String.length sep)
    by (cbn [String.length]; lia).
  now rewrite split_str_skip.
Qed.

Lemma split_label : forall l,
  contains l "X-ABLabel:" = false ->
  index (split_str "X-ABLabel:" ("X-ABLabel:" ++ l)) 1 = Ok l.
Proof.
  intros l H. rewrite split_str_head, (split_str_absent _ _ H). reflexivity.
Qed.

Lemma dispatch_tel : forall cfg debug group values l v st,
  preferred cfg = false \/ nonempty (strip v) = true ->
  dispatch cfg debug group values l ("TEL:" ++ v) st
  = Ok (emit ("Phone: "
              ++ match regex.vcard_extra_label l with
                 | Some inner => strip inner
                 | None => l
                 end,
              format_phone cfg (strip v)) st).
Proof.
  intros cfg debug group values l v st Hpref.
  unfold dispatch. cbv zeta.
  assert (E1 : startswith ("TEL:" ++ v) "EMAIL;" = false) by reflexivity.
  assert (E2 : startswith ("TEL:" ++ v) "TEL:" = true) by apply startswith_app.
  assert (E3 : value_of ("TEL:" ++ v) = Ok (strip v)) by reflexivity.
  rewrite E1, E2, E3. cbn [orb bind]. unfold pref_of_value.
  destruct (preferred cfg); [|reflexivity].
  destruct Hpref as [Hpref|Hpref]; [discriminate|].
  destruct (strip v) as [|c w]; [discriminate|].
  cbn [char0 bind]. now rewrite one_char_not_pref.
Qed.

(** X20: a group made of a label line [X-ABLabel:L] and a phone line [TEL:V]
    resolves to the one pair ("Phone: L'", reformatted trimmed V), where L' is
    L with the Apple wrapper taken off, whichever of the two lines comes
    first.  ([L] holds no second [X-ABLabel:]; with preferred duplication on,
    [V] is not blank.) *)
Theorem labelled_phone_group : forall cfg debug st group l v,
  contains l "X-ABLabel:" = false ->
  preferred cfg = false \/ nonempty (strip v) = true ->
  resolve_group cfg debug st (group, ["X-ABLabel:" ++ l; "TEL:" ++ v])
  = Ok (emit ("Phone: "
              ++ match regex.vcard_extra_label l with
                 | Some inner => strip inner
                 | None => l
                 end,
              format_phone cfg (strip v)) st) /\
  resolve_group cfg debug st (group, ["TEL:" ++ v; "X-ABLabel:" ++ l])
  = resolve_group cfg debug st (group, ["X-ABLabel:" ++ l; "TEL:" ++ v]).
Proof.
  intros cfg debug st group l v Hl Hpref.
  assert (E1 : startswith ("TEL:" ++ v) "X-ABLabel:" = false) by reflexivity.
  assert (E2 : startswith ("X-ABLabel:" ++ l) "X-ABLabel:" = true) by apply startswith_app.
  assert (Ha : resolve_group cfg debug st (group, ["X-ABLabel:" ++ l; "TEL:" ++ v])
               = Ok (emit ("Phone: "
                           ++ match regex.vcard_extra_label l with
                              | Some inner => strip inner
                              | None => l
                              end,
                           format_phone cfg (strip v)) st)).
  { unfold resolve_group. cbn [index nth_error bind].
    rewrite E1, E2, (split_label l Hl). cbn [bind].
    now apply dispatch_tel. }
  split; [exact Ha|]. rewrite Ha.
  unfold resolve_group. cbn [index nth_error bind].
  rewrite E2, (split_label l Hl). cbn [bind].
  now apply dispatch_tel.
Qed.

(** The statement at the group of the specification's example. *)
Lemma labelled_phone_group_witness :
  resolve_group cfg_on false init_state
    (1%N, ["X-ABLabel:" ++ "_$!<Assistant>!$_"; "TEL:" ++ "555-000-1111"])
  = Ok (emit ("Phone: "
              ++ match regex.vcard_extra_label "_$!<Assistant>!$_" with
                 | Some inner => strip inner
                 | None => "_$!<Assistant>!$_"
                 end,
              format_phone cfg_on (strip "555-000-1111")) init_state) /\
  resolve_group cfg_on false init_state
    (1%N, ["TEL:" ++ "555-000-1111"; "X-ABLabel:" ++ "_$!<Assistant>!$_"])
  = resolve_group cfg_on false init_state
      (1%N, ["X-ABLabel:" ++ "_$!<Assistant>!$_"; "TEL:" ++ "555-000-1111"]).
Proof.
  apply (labelled_phone_group cfg_on false init_state 1%N
           "_$!<Assistant>!$_" "555-000-1111").
  - reflexivity.
  - right. reflexivity.
Defined.

(** X21: with preferred duplication on, a labelled group whose phone line has
    a blank value ends the run: after the pair is stored the resolver reads
    the first character of the empty value and raises [IndexError]. *)
Theorem blank_grouped_phone_raises : forall cfg debug st group l v,
  contains l "X-ABLabel:" = false ->
  preferred cfg = true ->
  strip v = EmptyString ->
  resolve_group cfg debug st (group, ["X-ABLabel:" ++ l; "TEL:" ++ v])
  = Raise IndexError.
Proof.
  intros cfg debug st group l v Hl Hp Hv.
  assert (E1 : startswith ("TEL:" ++ v) "X-ABLabel:" = false) by reflexivity.
  assert (E2 : startswith ("X-ABLabel:" ++ l) "X-ABLabel:" = true) by apply startswith_app.
  assert (E3 : startswith ("TEL:" ++ v) "EMAIL;" = false) by reflexivity.
  assert (E4 : startswith ("TEL:" ++ v) "TEL:" = true) by apply startswith_app.
  assert (E5 : value_of ("TEL:" ++ v) = Ok (strip v)) by reflexivity.
  unfold resolve_group. cbn [index nth_error bind].
  rewrite E1, E2, (split_label l Hl). cbn [bind].
  unfold dispatch. cbv zeta. rewrite E3, E4, E5. cbn [orb bind].
  unfold pref_of_value. now rewrite Hp, Hv.
Qed.

(** The statement at a group whose phone line has no number. *)
Lemma blank_grouped_phone_raises_witness :
  resolve_group cfg_on false init_state (1%N, ["X-ABLabel:" ++ "Work"; "TEL:" ++ " "])
  = Raise IndexError.
Proof.
  apply (blank_grouped_phone_raises cfg_on false init_state 1%N "Work" " ");
    reflexivity.
Defined.

(** ** Headers without reordering *)

(** X22: with reordering off the headers are in strictly increasing
    lexicographic order. *)
Theorem headers_sorted_without_reordering : forall cfg save,
  reorder_enabled cfg = false ->
  Sorted str_lt (headers_of cfg save).
Proof.
  intros cfg save H. unfold headers_of, custom_column_ordering. rewrite H.
  cbn [negb fst]. apply StronglySorted_Sorted, sorted_set_sorted.
Qed.

(** The statement at two contacts. *)
Lemma headers_sorted_without_reordering_witness :
  Sorted str_lt
    (headers_of cfg_off
       [[("Name: Full", "Jo"); ("Phone: Cell", "1")]; [("Name: Full", "Al"); ("Note", "x")]]).
Proof.
  apply (headers_sorted_without_reordering cfg_off
           [[("Name: Full", "Jo"); ("Phone: Cell", "1")];
            [("Name: Full", "Al"); ("Note", "x")]]).
  reflexivity.
Defined.

(** * From the file to the rows *)

Lemma parse_vcard_records : forall cfg debug entries output0 output,
  for_each (fun output entry => sv <- parse_entry cfg debug entry ;; Ok (output ++ [sv])%list)
    entries output0 = Ok output ->
  exists records,
    output = (output0 ++ records)%list /\
    Forall2 (fun entry sv => parse_entry cfg debug entry = Ok sv) entries records.
Proof.
  intros cfg debug. induction entries as [|entry entries IH]; intros output0 output H.
  - simpl in H. injection H as <-. exists []. split; [now rewrite app_nil_r | constructor].
  - simpl in H. destruct (parse_entry cfg debug entry) as [sv|] eqn:E; [|discriminate].
    cbn [bind] in H. destruct (IH _ _ H) as (records & -> & Hall).
    exists (sv :: records). split; [now rewrite <- app_assoc|]. now constructor.
Qed.

(** X23: when a file is parsed without error, the record list has one record
    for each entry of the file, in the order of the entries, and each record
    is the pair list of its entry. *)
Theorem one_record_per_entry : forall cfg debug content output,
  parse_vcard cfg debug content = Ok output ->
  Forall2 (fun entry sv => parse_entry cfg debug entry = Ok sv)
    (entries_of content) output.
Proof.
  intros cfg debug content output H. unfold parse_vcard in H.
  destruct (parse_vcard_records _ _ _ _ _ H) as (records & -> & Hall). exact Hall.
Qed.

(** The statement at a file of two cards. *)
Lemma one_record_per_entry_witness :
  Forall2 (fun entry sv => parse_entry cfg_on false entry = Ok sv)
    (entries_of ("BEGIN:VCARD" ++ nl ++ "FN:Jo" ++ nl ++ "END:VCARD" ++ nl
                 ++ "BEGIN:VCARD" ++ nl ++ "FN:Al" ++ nl ++ "END:VCARD" ++ nl))
    [[("Name: Full", "Jo")]; [("Name: Full", "Al")]].
Proof.
  apply (one_record_per_entry cfg_on false
           ("BEGIN:VCARD" ++ nl ++ "FN:Jo" ++ nl ++ "END:VCARD" ++ nl
            ++ "BEGIN:VCARD" ++ nl ++ "FN:Al" ++ nl ++ "END:VCARD" ++ nl)).
  reflexivity.
Defined.

(** X24: no value is lost between the records and the CSV rows: for every
    pair of every contact, the row of the contact has a cell under the pair's
    label, and the escaped value of the pair is one of the values joined in
    that cell. *)
Theorem csv_keeps_every_value : forall cfg save entry h v,
  In entry save ->
  In (h, v) entry ->
  exists cells,
    dict_get h (csv_row (headers_of cfg save) entry) = Some (join ", " cells) /\
    In (csv_escape v) cells.
Proof.
  intros cfg save entry h v He Hp.
  assert (Hh : In h (headers_of cfg save)).
  { apply headers_In. unfold labels_of. apply in_flat_map. exists entry.
    split; [exact He|]. apply in_map_iff. now exists (h, v). }
  eexists. split; [now apply csv_row_get|].
  apply in_map_iff. exists (h, v). split; [reflexivity|].
  apply filter_In. split; [exact Hp | apply String.eqb_refl].
Qed.

(** The statement at a contact with two mobile numbers. *)
Lemma csv_keeps_every_value_witness :
  exists cells,
    dict_get "Phone: Cell"
      (csv_row (headers_of cfg_on [[("Phone: Cell", "1"); ("Phone: Cell", "2")]])
         [("Phone: Cell", "1"); ("Phone: Cell", "2")])
    = Some (join ", " cells) /\
    In (csv_escape "2") cells.
Proof.
  apply (csv_keeps_every_value cfg_on [[("Phone: Cell", "1"); ("Phone: Cell", "2")]]
           [("Phone: Cell", "1"); ("Phone: Cell", "2")] "Phone: Cell" "2").
  - now left.
  - right. now left.
Defined.
